(** * The job system of src/server/systems/job.mjs

    A shallow embedding of the objective / job state machine of
    [job.mjs] and the properties of its specification.

    Modelling conventions.
    - Integer-valued JavaScript numbers (objective kind, modifier flags,
      progress counters, reward quantities) are [Z].
    - Coordinates and the range radius are real numbers [R]; JavaScript's
      [NaN] and infinities have no counterpart here.
    - [&] works on 32-bit integers; the conversion is written out in
      [toInt32].
    - Points ([{x, y, z}] objects) are JavaScript objects that the code
      shares and mutates in place, so they live in a store ([Heap]) and are
      passed around by reference ([Ref]).
    - Every call the code issues on the player ([emitMeta], [send],
      [addItem], [playAnimation], [playAudio]), together with [addXP] and
      [console.log], is recorded in order in the player's [trace].
    - A call that can throw returns an [Outcome]: how it ended, and the
      state it left behind.
    - The player or vehicle an objective targets is an object of the alt
      runtime.  The code hands a target to one operation only,
      [JSON.stringify] of the objective, which throws when the structure it
      walks is circular; a player whose job holds an objective that targets
      that player ([player.job = this], set by the [Job] constructor) makes
      it so.  A targeted player or vehicle therefore carries, next to its
      identity, whether serialising it runs into a cycle. *)

From Stdlib Require Import ZArith String List Bool Reals Lra Lia.
Import ListNotations.

Open Scope string_scope.
Open Scope Z_scope.

(** ** Enumerations *)

Module Objectives.
Definition POINT : Z := 0.
Definition CAPTURE : Z := 1.
Definition HOLD : Z := 2.
Definition MASH : Z := 3.
Definition PLAYER : Z := 4.
Definition ORDER : Z := 5.
Definition INFINITE : Z := 6.
End Objectives.

Module Modifiers.
Definition MIN : Z := 0.
Definition ON_FOOT : Z := 1.
Definition IN_VEHICLE : Z := 2.
Definition PROGRESS : Z := 4.
Definition SPAWN_VEHICLE : Z := 8.
Definition REMOVE_VEHICLE : Z := 16.
Definition PICKUP_PLAYER : Z := 32.
Definition DROPOFF_PLAYER : Z := 64.
Definition KILL_PLAYER : Z := 128.
Definition REPAIR_PLAYER : Z := 256.
Definition ITEM_RESTRICTIONS : Z := 512.
Definition MAX : Z := 1024.
End Modifiers.

(** ** Numbers *)

(** ToInt32 of an integer-valued number: reduction modulo 2^32 into
    [-2^31, 2^31). *)
Definition toInt32 (n : Z) : Z :=
  (n + 2147483648) mod 4294967296 - 2147483648.

(** [function isFlagged(flags, flagValue)]:
    [(flags & flagValue) === flagValue]. *)
Definition isFlagged (flags flagValue : Z) : bool :=
  if Z.land (toInt32 flags) (toInt32 flagValue) =? flagValue
  then true
  else false.

(** Truthiness of an integer-valued number: only [0] is falsy. *)
Definition truthy (n : Z) : bool := negb (n =? 0).

(** [a >= b] and [a <= b] on real numbers, as booleans. *)
Definition Rgeb (a b : R) : bool := if Rge_dec a b then true else false.
Definition Rleb (a b : R) : bool := if Rle_dec a b then true else false.

(** ** Points and the store they live in *)

Module Vec3.
Record t : Type := mk { x : R; y : R; z : R }.
End Vec3.

Definition Ref : Type := nat.
Definition Heap : Type := Ref -> Vec3.t.

Definition store (h : Heap) (r : Ref) (v : Vec3.t) : Heap :=
  fun r' => if Nat.eqb r' r then v else h r'.

(** ** How a call ends *)

(** A call returns, or it throws a [TypeError]; either way it leaves a
    state behind. *)
Inductive Outcome (S : Type) : Type :=
| Returned (s : S)
| ThrewTypeError (s : S).
Arguments Returned {S} s.
Arguments ThrewTypeError {S} s.

(** The state a call leaves behind, however it ended. *)
Definition stateOf {S : Type} (r : Outcome S) : S :=
  match r with
  | Returned s => s
  | ThrewTypeError s => s
  end.

(** What [checkObjective] hands back: [true], [false], or the [undefined]
    that the empty body of [order] returns. *)
Inductive Checked : Type :=
| JsBool (b : bool)
| JsUndefined.

(** [!v] reads [undefined] as false. *)
Definition toBoolean (v : Checked) : bool :=
  match v with
  | JsBool b => b
  | JsUndefined => false
  end.

(** Modelled from the spec: [distance] of utility/vector.mjs is not part of
    the sources at hand; the specification describes it as
    "distance(pointA, pointB) -> number (Euclidean 3D)". *)
Definition distance (a b : Vec3.t) : R :=
  sqrt ((Vec3.x a - Vec3.x b) * (Vec3.x a - Vec3.x b)
        + (Vec3.y a - Vec3.y b) * (Vec3.y a - Vec3.y b)
        + (Vec3.z a - Vec3.z b) * (Vec3.z a - Vec3.z b))%R.

(** ** Records attached to an objective *)

Module Reward.
(** [{ type: 'item', prop: 'itemKey', quantity: 1 }] *)
Record t : Type := mk { type : string; prop : string; quantity : Z }.
End Reward.

Module Anim.
Record t : Type := mk { dict : string; name : string; flags : Z; duration : Z }.
End Anim.

Module Marker.
Record t : Type := mk {
  type : Z; pos : Ref; dir : Ref; rot : Ref; scale : Ref;
  r : Z; g : Z; b : Z; a : Z }.
End Marker.

Module Blip.
Record t : Type := mk { sprite : Z; color : Z; pos : Ref }.
End Blip.

Module Target.
(** "vector3, player, vehicle, etc."  [cyclic] says whether the
    properties of the player or vehicle lead back to an object already
    being serialised, as they do for a player whose job holds an objective
    that targets that player. *)
Inductive entity : Type :=
| OfVector (r : Ref)
| OfPlayer (id : nat) (cyclic : bool)
| OfVehicle (id : nat) (cyclic : bool).
Record t : Type := mk { target : entity; type : string }.
End Target.

Module ItemRestriction.
(** [{ label: 'Pickaxe', inInventory: true, quantity: 1 }] *)
Record t : Type := mk { label : string; inInventory : bool; quantity : Z }.
End ItemRestriction.

(** ** Objective *)

Record Objective : Type := mkObjective {
  type : Z;
  flags : Z;
  rewards : list Reward.t;
  range : R;
  maxProgress : Z;
  progress : Z;
  word : option string;
  pos : option Ref;
  helpText : option string;
  everySound : option string;
  finishSound : option string;
  anim : option Anim.t;
  marker : option Marker.t;
  blip : option Blip.t;
  target : option Target.t;
  itemRestrictions : option (list ItemRestriction.t)
}.

(** [constructor(objectiveType, objectiveFlags)].  [getWord] draws a random
    entry of the dictionary; the entry drawn is the argument [drawn]
    ([None] when the dictionary has no such entry). *)
Definition newObjective (drawn : option string) (objectiveType objectiveFlags : Z)
  : Objective :=
  {| type := objectiveType;
     flags := objectiveFlags;
     rewards := [];
     range := 5%R;
     maxProgress := 5;
     progress := -1;
     word := if objectiveType =? 5 then drawn else None;
     pos := None;
     helpText := None;
     everySound := None;
     finishSound := None;
     anim := None;
     marker := None;
     blip := None;
     target := None;
     itemRestrictions := None |}.

(** Field assignments [this.f = v]. *)
Definition with_pos (o : Objective) (v : option Ref) : Objective :=
  mkObjective (type o) (flags o) (rewards o) (range o) (maxProgress o)
    (progress o) (word o) v (helpText o) (everySound o) (finishSound o)
    (anim o) (marker o) (blip o) (target o) (itemRestrictions o).

Definition with_range (o : Objective) (v : R) : Objective :=
  mkObjective (type o) (flags o) (rewards o) v (maxProgress o)
    (progress o) (word o) (pos o) (helpText o) (everySound o) (finishSound o)
    (anim o) (marker o) (blip o) (target o) (itemRestrictions o).

Definition with_progress (o : Objective) (v : Z) : Objective :=
  mkObjective (type o) (flags o) (rewards o) (range o) (maxProgress o)
    v (word o) (pos o) (helpText o) (everySound o) (finishSound o)
    (anim o) (marker o) (blip o) (target o) (itemRestrictions o).

Definition with_rewards (o : Objective) (v : list Reward.t) : Objective :=
  mkObjective (type o) (flags o) v (range o) (maxProgress o)
    (progress o) (word o) (pos o) (helpText o) (everySound o) (finishSound o)
    (anim o) (marker o) (blip o) (target o) (itemRestrictions o).

Definition with_helpText (o : Objective) (v : option string) : Objective :=
  mkObjective (type o) (flags o) (rewards o) (range o) (maxProgress o)
    (progress o) (word o) (pos o) v (everySound o) (finishSound o)
    (anim o) (marker o) (blip o) (target o) (itemRestrictions o).

Definition with_everySound (o : Objective) (v : option string) : Objective :=
  mkObjective (type o) (flags o) (rewards o) (range o) (maxProgress o)
    (progress o) (word o) (pos o) (helpText o) v (finishSound o)
    (anim o) (marker o) (blip o) (target o) (itemRestrictions o).

Definition with_finishSound (o : Objective) (v : option string) : Objective :=
  mkObjective (type o) (flags o) (rewards o) (range o) (maxProgress o)
    (progress o) (word o) (pos o) (helpText o) (everySound o) v
    (anim o) (marker o) (blip o) (target o) (itemRestrictions o).

Definition with_anim (o : Objective) (v : option Anim.t) : Objective :=
  mkObjective (type o) (flags o) (rewards o) (range o) (maxProgress o)
    (progress o) (word o) (pos o) (helpText o) (everySound o) (finishSound o)
    v (marker o) (blip o) (target o) (itemRestrictions o).

Definition with_marker (o : Objective) (v : option Marker.t) : Objective :=
  mkObjective (type o) (flags o) (rewards o) (range o) (maxProgress o)
    (progress o) (word o) (pos o) (helpText o) (everySound o) (finishSound o)
    (anim o) v (blip o) (target o) (itemRestrictions o).

Definition with_blip (o : Objective) (v : option Blip.t) : Objective :=
  mkObjective (type o) (flags o) (rewards o) (range o) (maxProgress o)
    (progress o) (word o) (pos o) (helpText o) (everySound o) (finishSound o)
    (anim o) (marker o) v (target o) (itemRestrictions o).

Definition with_target (o : Objective) (v : option Target.t) : Objective :=
  mkObjective (type o) (flags o) (rewards o) (range o) (maxProgress o)
    (progress o) (word o) (pos o) (helpText o) (everySound o) (finishSound o)
    (anim o) (marker o) (blip o) v (itemRestrictions o).

Definition with_itemRestrictions (o : Objective)
  (v : option (list ItemRestriction.t)) : Objective :=
  mkObjective (type o) (flags o) (rewards o) (range o) (maxProgress o)
    (progress o) (word o) (pos o) (helpText o) (everySound o) (finishSound o)
    (anim o) (marker o) (blip o) (target o) v.

(** *** Setters *)

(** [setPosition(pos) { pos.z -= 0.5; this.pos = pos; }]: the point passed
    is lowered in place, then the objective keeps a reference to it.
    [pos] is [None] for a call without a point ([undefined] or [null]):
    reading [pos.z] then throws, before anything is assigned. *)
Definition setPosition (h : Heap) (o : Objective) (pos : option Ref)
  : Outcome (Heap * Objective) :=
  match pos with
  | None => ThrewTypeError (h, o)
  | Some p =>
      let v := h p in
      let h' := store h p (Vec3.mk (Vec3.x v) (Vec3.y v) (Vec3.z v - 0.5)%R) in
      Returned (h', with_pos o (Some p))
  end.

(** [setRange(range) { if (range <= 2) range = 2; this.range = range; }] *)
Definition setRange (o : Objective) (range : R) : Objective :=
  let range := if Rleb range 2 then 2%R else range in
  with_range o range.

Definition setHelpText (o : Objective) (msg : string) : Objective :=
  with_helpText o (Some msg).

Definition setRewards (o : Objective) (arrayOfRewards : list Reward.t) : Objective :=
  with_rewards o arrayOfRewards.

Definition setEverySound (o : Objective) (soundName : string) : Objective :=
  with_everySound o (Some soundName).

Definition setFinishSound (o : Objective) (soundName : string) : Objective :=
  with_finishSound o (Some soundName).

Definition setAnimation (o : Objective) (dict name : string) (flags duration : Z)
  : Objective :=
  with_anim o (Some (Anim.mk dict name flags duration)).

Definition setMarker (o : Objective) (type : Z) (pos dir rot scale : Ref)
  (r g b a : Z) : Objective :=
  with_marker o (Some (Marker.mk type pos dir rot scale r g b a)).

Definition setBlip (o : Objective) (sprite color : Z) (pos : Ref) : Objective :=
  with_blip o (Some (Blip.mk sprite color pos)).

Definition setTarget (o : Objective) (target : Target.entity) (type : string)
  : Objective :=
  with_target o (Some (Target.mk target type)).

Definition setItemRestrictions (o : Objective)
  (arrayOfItems : list ItemRestriction.t) : Objective :=
  with_itemRestrictions o (Some arrayOfItems).

(** ** The player and what the code does to it *)

Module ItemDef.
(** An entry of the item catalog [Items] (configuration/items.mjs); the
    code reads its [label] and [stackable] properties. *)
Record t : Type := mk { label : string; stackable : bool }.
End ItemDef.

(** [Items[key]]: the item catalog, a table that is not part of the sources
    at hand; every function that reads it takes it as an argument. *)
Definition Catalog : Type := string -> option ItemDef.t.

(** A value published with [emitMeta]. *)
Inductive MetaValue : Type :=
| MUndefined
| MBool (b : bool)
| MNumber (n : Z)
| MJson (o : Objective).

Inductive Event : Type :=
| EmitMeta (key : string) (value : MetaValue)
| Send (msg : string)
| AddItem (item : ItemDef.t) (quantity : Z) (flag : bool)
| AddXP (skill : string) (quantity : Z)
| PlayAnimation (dict name : string) (duration : Z) (flag : option Z)
| PlayAudio (soundName : string)
| ConsoleLog (msg : string).

Module Player.
Record t : Type := mk {
  pos : Ref;
  vehicle : option nat;
  checking : bool;
  trace : list Event }.

Definition record (p : t) (e : Event) : t :=
  mk (pos p) (vehicle p) (checking p) (trace p ++ [e])%list.

Definition with_checking (p : t) (b : bool) : t :=
  mk (pos p) (vehicle p) b (trace p).

Definition emitMeta (p : t) (key : string) (value : MetaValue) : t :=
  record p (EmitMeta key value).
Definition send (p : t) (msg : string) : t := record p (Send msg).
Definition addItem (p : t) (item : ItemDef.t) (quantity : Z) (flag : bool) : t :=
  record p (AddItem item quantity flag).
Definition playAnimation (p : t) (dict name : string) (duration : Z)
  (flag : option Z) : t :=
  record p (PlayAnimation dict name duration flag).
Definition playAudio (p : t) (soundName : string) : t :=
  record p (PlayAudio soundName).
End Player.

(** [addXP(player, skill, quantity)] of systems/skills.mjs, recorded as a
    call. *)
Definition addXP (p : Player.t) (skill : string) (quantity : Z) : Player.t :=
  Player.record p (AddXP skill quantity).

Definition consoleLog (p : Player.t) (msg : string) : Player.t :=
  Player.record p (ConsoleLog msg).

(** ** Checking an objective *)

(** [const isInRange = (player, objective) =>
      distance(player.pos, objective.pos) >= objective.range ? false : true].
    It is only called once [objective.pos] is set. *)
Definition isInRange (h : Heap) (player : Player.t) (objective : Objective) : bool :=
  match pos objective with
  | Some r =>
      if Rgeb (distance (h (Player.pos player)) (h r)) (range objective)
      then false
      else true
  | None => false
  end.

(** [playAnimation(player, objective)]; the call reads [anim.flag], a
    property the record built by [setAnimation] does not have. *)
Definition playAnimation (player : Player.t) (objective : Objective) : Player.t :=
  match anim objective with
  | None => player
  | Some anim =>
      Player.playAnimation player (Anim.dict anim) (Anim.name anim)
        (Anim.duration anim) None
  end.

Definition playEverySound (player : Player.t) (objective : Objective) : Player.t :=
  match everySound objective with
  | None => player
  | Some s => Player.playAudio player s
  end.

(** [capture], [hold] and [mash]: the three have the same body. *)
Definition capture (player : Player.t) (objective : Objective)
  : bool * Objective * Player.t :=
  let objective := with_progress objective (progress objective + 1) in
  if progress objective <? maxProgress objective
  then (false, objective, playEverySound (playAnimation player objective) objective)
  else (true, objective, player).

Definition hold (player : Player.t) (objective : Objective)
  : bool * Objective * Player.t :=
  let objective := with_progress objective (progress objective + 1) in
  if progress objective <? maxProgress objective
  then (false, objective, playEverySound (playAnimation player objective) objective)
  else (true, objective, player).

Definition mash (player : Player.t) (objective : Objective)
  : bool * Objective * Player.t :=
  let objective := with_progress objective (progress objective + 1) in
  if progress objective <? maxProgress objective
  then (false, objective, playEverySound (playAnimation player objective) objective)
  else (true, objective, player).

(** [order] has an empty body: it returns [undefined]. *)
Definition order (player : Player.t) (objective : Objective) (args : list string)
  : Checked * Objective * Player.t :=
  (JsUndefined, objective, player).

(** The stages of [checkObjective], in the order of the source. *)

(** [if (!this.pos) this.pos = player.pos;] *)
Definition ensurePosition (player : Player.t) (o : Objective) : Objective :=
  match pos o with
  | None => with_pos o (Some (Player.pos player))
  | Some _ => o
  end.

(** [if (this.type <= 5) { if (!isInRange(player, this)) valid = false; }] *)
Definition rangeGate (h : Heap) (player : Player.t) (o : Objective) (valid : bool)
  : bool :=
  if type o <=? 5
  then if negb (isInRange h player o) then false else valid
  else valid.

(** [if (isFlagged(this.flags, Modifiers.ON_FOOT) && valid)
      { if (player.vehicle) valid = false; }] *)
Definition onFootGate (player : Player.t) (o : Objective) (valid : bool) : bool :=
  if isFlagged (flags o) Modifiers.ON_FOOT && valid
  then match Player.vehicle player with Some _ => false | None => valid end
  else valid.

(** [if (isFlagged(this.flags, Modifiers.IN_VEHICLE) && valid)
      { if (!player.vehicle) valid = false; }] *)
Definition inVehicleGate (player : Player.t) (o : Objective) (valid : bool) : bool :=
  if isFlagged (flags o) Modifiers.IN_VEHICLE && valid
  then match Player.vehicle player with None => false | Some _ => valid end
  else valid.

(** [if (isFlagged(this.flags, Modifiers.PROGRESS) && valid)
      { if (!this.progress) { this.progress = 0; } }] *)
Definition progressInit (o : Objective) (valid : bool) : Objective :=
  if isFlagged (flags o) Modifiers.PROGRESS && valid
  then if negb (truthy (progress o)) then with_progress o 0 else o
  else o.

(** The four [if (this.type === Objectives.K && valid) valid = k(player, this)]
    statements. *)
Definition dispatch (player : Player.t) (o : Objective) (args : list string)
  (valid : bool) : Checked * Objective * Player.t :=
  let '(valid, o, player) :=
    if (type o =? Objectives.CAPTURE) && valid
    then capture player o else (valid, o, player) in
  let '(valid, o, player) :=
    if (type o =? Objectives.HOLD) && valid
    then hold player o else (valid, o, player) in
  let '(valid, o, player) :=
    if (type o =? Objectives.MASH) && valid
    then mash player o else (valid, o, player) in
  let '(valid, o, player) :=
    if (type o =? Objectives.ORDER) && valid
    then order player o args else (JsBool valid, o, player) in
  (valid, o, player).

(** The outcome of [capture], [hold] or [mash] as [checkObjective] hands
    it back. *)
Definition checked (r : bool * Objective * Player.t)
  : Checked * Objective * Player.t :=
  let '(valid, o, player) := r in (JsBool valid, o, player).

(** The value of [valid] once the range check and the two vehicle checks
    have run (the objective's position already defaulted). *)
Definition gates (h : Heap) (player : Player.t) (o : Objective) : bool :=
  let valid := true in
  let valid := rangeGate h player o valid in
  let valid := onFootGate player o valid in
  let valid := inVehicleGate player o valid in
  valid.

Definition checkObjective (h : Heap) (player : Player.t) (o : Objective)
  (args : list string) : Checked * Objective * Player.t :=
  let o := ensurePosition player o in
  let valid := gates h player o in
  let o := progressInit o valid in
  dispatch player o args valid.

(** ** Rewards *)

Definition addedMessage (item : ItemDef.t) : string :=
  ItemDef.label item ++ " was added to your inventory.".

(** [for (let i = 0; i < reward.quantity; i++)
      { player.addItem({ ...item }, 1, false); player.send(...); }],
    [n] being the number of rounds left. *)
Fixpoint addEach (n : nat) (item : ItemDef.t) (player : Player.t) : Player.t :=
  match n with
  | O => player
  | S n' =>
      let player := Player.addItem player item 1 false in
      let player := Player.send player (addedMessage item) in
      addEach n' item player
  end.

(** The body of [this.rewards.forEach(reward => ...)]. *)
Definition issueReward (Items : Catalog) (player : Player.t) (reward : Reward.t)
  : Player.t :=
  let player :=
    if (Reward.type reward =? "xp")%string
    then addXP player (Reward.prop reward) (Reward.quantity reward)
    else player in
  if (Reward.type reward =? "item")%string
  then match Items (Reward.prop reward) with
       | Some item =>
           if ItemDef.stackable item
           then
             let player := Player.addItem player item (Reward.quantity reward) false in
             Player.send player (addedMessage item)
           else addEach (Z.to_nat (Reward.quantity reward)) item player
       | None =>
           consoleLog player (Reward.prop reward ++ " was not found for a reward.")
       end
  else player.

Definition attemptObjective (Items : Catalog) (h : Heap) (player : Player.t)
  (o : Objective) (args : list string) : bool * Objective * Player.t :=
  let '(valid, o, player) := checkObjective h player o args in
  if negb (toBoolean valid)
  then (false, o, Player.emitMeta player "job:Progress" (MNumber (progress o)))
  else
    let player :=
      if (1 <=? length (rewards o))%nat
      then fold_left (issueReward Items) (rewards o) player
      else player in
    (true, o, Player.emitMeta player "job:Objective" MUndefined).

(** ** Job *)

(** Whether serialising the objective runs into a cycle: its target is
    a player or vehicle that does. *)
Definition circular (o : Objective) : bool :=
  match target o with
  | Some t =>
      match Target.target t with
      | Target.OfVector _ => false
      | Target.OfPlayer _ cyclic => cyclic
      | Target.OfVehicle _ cyclic => cyclic
      end
  | None => false
  end.

(** [JSON.stringify(this.objectives[0])]: [undefined] for [undefined], the
    serialised objective, or [None] when the call throws "Converting
    circular structure to JSON". *)
Definition stringify (o : option Objective) : option MetaValue :=
  match o with
  | Some o => if circular o then None else Some (MJson o)
  | None => Some MUndefined
  end.

Module Job.
Record t : Type := mk {
  name : string;
  objectives : list Objective;
  infinite : bool }.

(** [constructor(player, name)]; [this.infinite] starts out undefined,
    which is falsy. *)
Definition new (name : string) : t := mk name [] false.

Definition add (j : t) (objectiveClass : Objective) : t :=
  mk (name j) (objectives j ++ [objectiveClass])%list (infinite j).

Definition start (j : t) (player : Player.t) : Outcome Player.t :=
  match stringify (hd_error (objectives j)) with
  | Some json => Returned (Player.emitMeta player "job:Objective" json)
  | None => ThrewTypeError player
  end.

(** [next]: the queue and the loop flag are updated before the new head is
    serialised, so they are as updated also when the serialisation throws. *)
Definition next (j : t) (player : Player.t) : Outcome (t * Player.t) :=
  (* const lastObjective = this.objectives.shift(); *)
  let lastObjective := hd_error (objectives j) in
  let objs := tl (objectives j) in
  let player := Player.emitMeta player "job:ClearObjective" (MBool true) in
  match hd_error objs with
  | Some _ =>
      (* if (this.infinite) this.objectives.push(lastObjective); *)
      let objs :=
        if infinite j
        then match lastObjective with
             | Some l => (objs ++ [l])%list
             | None => objs
             end
        else objs in
      (* if (this.objectives[0].type === Objectives.INFINITE) *)
      let '(inf, objs) :=
        match hd_error objs with
        | Some first =>
            if type first =? Objectives.INFINITE
            then (true, tl objs)
            else (infinite j, objs)
        | None => (infinite j, objs)
        end in
      match stringify (hd_error objs) with
      | Some json =>
          Returned (mk (name j) objs inf,
                    Player.emitMeta player "job:Objective" json)
      | None => ThrewTypeError (mk (name j) objs inf, player)
      end
  | None =>
      let player := Player.emitMeta player "job:Objective" MUndefined in
      let player := Player.send player "Job Complete" in
      Returned (mk (name j) objs (infinite j), player)
  end.

Definition check (Items : Catalog) (h : Heap) (j : t) (player : Player.t)
  (args : list string) : Outcome (t * Player.t) :=
  if Player.checking player then Returned (j, player)
  else
    let player := Player.with_checking player true in
    match objectives j with
    | [] => ThrewTypeError (j, player)
    | first :: rest =>
        let '(done, first, player) := attemptObjective Items h player first args in
        let j := mk (name j) (first :: rest) (infinite j) in
        if negb done
        then Returned (j, Player.with_checking player false)
        else next j (Player.with_checking player false)
    end.
End Job.

(** The kinds that count attempts: capture, hold and mash. *)
Definition counting (o : Objective) : Prop :=
  type o = Objectives.CAPTURE \/ type o = Objectives.HOLD \/ type o = Objectives.MASH.

(** ** Running several attempts in a row *)

(** [attemptObjective] called once per entry of [players] on the same
    objective, each entry being the player as it is when that call is made.
    Every call yields its return value and the objective's [progress] once
    it has returned. *)
Fixpoint attemptEach (Items : Catalog) (h : Heap) (o : Objective)
  (players : list Player.t) : list (bool * Z) :=
  match players with
  | [] => []
  | player :: rest =>
      let '(done, o', _) := attemptObjective Items h player o [] in
      (done, progress o') :: attemptEach Items h o' rest
  end.

(** ** Sample data *)

Definition origin : Vec3.t := Vec3.mk 0 0 0.

(** A store in which every point is the origin. *)
Definition heap0 : Heap := fun _ => origin.

(** A store with the point [(0, 0, 3)] at reference 1: three units above the
    origin. *)
Definition heap1 : Heap := store heap0 1%nat (Vec3.mk 0 0 3).

(** A player on foot whose position is the point at reference 0. *)
Definition player0 : Player.t := Player.mk 0%nat None false [].

(** The same player in the middle of a check. *)
Definition busyPlayer : Player.t := Player.mk 0%nat None true [].

Definition trackSuit : ItemDef.t := ItemDef.mk "Track Suit" false.
Definition bandage : ItemDef.t := ItemDef.mk "Bandage" true.

Definition sampleItems : Catalog :=
  fun key =>
    if (key =? "TrackSuit")%string then Some trackSuit
    else if (key =? "Bandage")%string then Some bandage
    else None.

(** [new Objective(0, 0)], [new Objective(1, 0)], [new Objective(1, 4)] and
    [new Objective(6, 1)]. *)
Definition goToPoint : Objective := newObjective None Objectives.POINT Modifiers.MIN.
Definition captureZone : Objective := newObjective None Objectives.CAPTURE Modifiers.MIN.
Definition trackedZone : Objective :=
  newObjective None Objectives.CAPTURE Modifiers.PROGRESS.
Definition infiniteMarker : Objective :=
  newObjective None Objectives.INFINITE Modifiers.ON_FOOT.

Definition stepA : Objective := setHelpText goToPoint "A".
Definition stepB : Objective := setHelpText goToPoint "B".
Definition stepC : Objective := setHelpText goToPoint "C".
Definition stepD : Objective := setHelpText goToPoint "D".

(** [job.add(A); job.add(B); job.add(InfiniteMarker); job.add(C)] *)
Definition loopJob : Job.t :=
  Job.add (Job.add (Job.add (Job.add (Job.new "loop") stepA) stepB) infiniteMarker) stepC.

(** A job with the single objective [A]. *)
Definition singleJob : Job.t := Job.add (Job.new "single") stepA.

(** A point objective rewarding three track suits, and one rewarding three
    bandages. *)
Definition suitReward : Objective :=
  setRewards goToPoint [Reward.mk "item" "TrackSuit" 3].
Definition bandageReward : Objective :=
  setRewards goToPoint [Reward.mk "item" "Bandage" 3].

(** ** Comparing objectives field by field *)

Inductive Field : Type :=
| FType | FFlags | FRewards | FRange | FMaxProgress | FProgress | FWord | FPos
| FHelpText | FEverySound | FFinishSound | FAnim | FMarker | FBlip | FTarget
| FItemRestrictions.

(** [o'] has the value of [o] in every field other than [f]. *)
Definition agree_off (f : Field) (o o' : Objective) : Prop :=
  (f <> FType -> type o' = type o)
  /\ (f <> FFlags -> flags o' = flags o)
  /\ (f <> FRewards -> rewards o' = rewards o)
  /\ (f <> FRange -> range o' = range o)
  /\ (f <> FMaxProgress -> maxProgress o' = maxProgress o)
  /\ (f <> FProgress -> progress o' = progress o)
  /\ (f <> FWord -> word o' = word o)
  /\ (f <> FPos -> pos o' = pos o)
  /\ (f <> FHelpText -> helpText o' = helpText o)
  /\ (f <> FEverySound -> everySound o' = everySound o)
  /\ (f <> FFinishSound -> finishSound o' = finishSound o)
  /\ (f <> FAnim -> anim o' = anim o)
  /\ (f <> FMarker -> marker o' = marker o)
  /\ (f <> FBlip -> blip o' = blip o)
  /\ (f <> FTarget -> target o' = target o)
  /\ (f <> FItemRestrictions -> itemRestrictions o' = itemRestrictions o).

(** ** The word of an ordered-keys objective *)

(** [const getWord = () => {
      const word = Math.floor(Math.random() * (Dictionary.length - 1));
      return Dictionary[word]; }].
    [Dictionary] (configuration/dictionary.mjs) is an array of words and
    [random] the value [Math.random()] returns, a number in [0, 1).  An
    index outside the array reads [undefined]. *)
Definition getWord (Dictionary : list string) (random : R) : option string :=
  let word := Int_part (random * (INR (length Dictionary) - 1)) in
  if word <? 0 then None else nth_error Dictionary (Z.to_nat word).

(** ** Configuring an objective *)

(** One call of a setter, with its arguments. *)
Inductive SetterCall : Type :=
| SetPosition (p : Ref)
| SetRange (r : R)
| SetHelpText (msg : string)
| SetRewards (arrayOfRewards : list Reward.t)
| SetEverySound (soundName : string)
| SetFinishSound (soundName : string)
| SetAnimation (dict name : string) (flags duration : Z)
| SetMarker (type : Z) (pos dir rot scale : Ref) (r g b a : Z)
| SetBlip (sprite color : Z) (pos : Ref)
| SetTarget (target : Target.entity) (type : string)
| SetItemRestrictions (arrayOfItems : list ItemRestriction.t).

Definition callSetter (s : Heap * Objective) (c : SetterCall) : Heap * Objective :=
  let '(h, o) := s in
  match c with
  | SetPosition p => stateOf (setPosition h o (Some p))
  | SetRange r => (h, setRange o r)
  | SetHelpText msg => (h, setHelpText o msg)
  | SetRewards rs => (h, setRewards o rs)
  | SetEverySound n => (h, setEverySound o n)
  | SetFinishSound n => (h, setFinishSound o n)
  | SetAnimation d n f t => (h, setAnimation o d n f t)
  | SetMarker t p d r sc cr cg cb ca => (h, setMarker o t p d r sc cr cg cb ca)
  | SetBlip sp c p => (h, setBlip o sp c p)
  | SetTarget t k => (h, setTarget o t k)
  | SetItemRestrictions items => (h, setItemRestrictions o items)
  end.

(** The calls made one after the other. *)
Definition callSetters (s : Heap * Objective) (calls : list SetterCall)
  : Heap * Objective :=
  fold_left callSetter calls s.

(** How many of the calls are [setPosition] with the point [q]. *)
Fixpoint timesPositioned (q : Ref) (calls : list SetterCall) : nat :=
  match calls with
  | [] => O
  | SetPosition p :: rest =>
      if Nat.eqb p q then S (timesPositioned q rest) else timesPositioned q rest
  | _ :: rest => timesPositioned q rest
  end.

(** ** Advancing a job several times *)

(** [next] called [n] times in a row, each call on the job and the player
    as the call before left them. *)
Fixpoint nextTimes (n : nat) (j : Job.t) (player : Player.t) : Job.t * Player.t :=
  match n with
  | O => (j, player)
  | S n' =>
      let '(j', player') := stateOf (Job.next j player) in
      nextTimes n' j' player'
  end.

(** What [next] publishes when it moves on to the objective [o]: the clear
    signal, then the objective unless serialising it throws. *)
Definition movedOnTo (o : Objective) : list Event :=
  EmitMeta "job:ClearObjective" (MBool true)
  :: (if circular o then [] else [EmitMeta "job:Objective" (MJson o)]).

(** ** The fields a check reads *)

(** [o] and [o'] have the same kind, flags, range, position, progress,
    [maxProgress], animation and per-tick sound. *)
Definition sameReadFields (o o' : Objective) : Prop :=
  type o' = type o /\ flags o' = flags o /\ range o' = range o
  /\ pos o' = pos o /\ progress o' = progress o
  /\ maxProgress o' = maxProgress o /\ anim o' = anim o
  /\ everySound o' = everySound o.

(** ** The player apart from its trace *)

(** [q] is [p] with, at most, a different trace. *)
Definition sameButTrace (p q : Player.t) : Prop :=
  Player.pos q = Player.pos p
  /\ Player.vehicle q = Player.vehicle p
  /\ Player.checking q = Player.checking p.

(** * Properties *)

(** ** Comparisons and distance *)

Lemma Rgeb_true_iff (a b : R) : Rgeb a b = true <-> (a >= b)%R.
Proof.
  unfold Rgeb. destruct (Rge_dec a b) as [H | H]; split; intro K;
    try reflexivity; try assumption; try discriminate; contradiction.
Qed.

Lemma Rgeb_false_iff (a b : R) : Rgeb a b = false <-> (a < b)%R.
Proof.
  unfold Rgeb. destruct (Rge_dec a b) as [H | H]; split; intro K;
    try reflexivity; try discriminate; lra.
Qed.

Lemma Rleb_true_iff (a b : R) : Rleb a b = true <-> (a <= b)%R.
Proof.
  unfold Rleb. destruct (Rle_dec a b) as [H | H]; split; intro K;
    try reflexivity; try assumption; try discriminate; contradiction.
Qed.

Lemma Rleb_false_iff (a b : R) : Rleb a b = false <-> (b < a)%R.
Proof.
  unfold Rleb. destruct (Rle_dec a b) as [H | H]; split; intro K;
    try reflexivity; try discriminate; lra.
Qed.

Lemma distance_self (a : Vec3.t) : distance a a = 0%R.
Proof.
  unfold distance.
  replace ((Vec3.x a - Vec3.x a) * (Vec3.x a - Vec3.x a)
           + (Vec3.y a - Vec3.y a) * (Vec3.y a - Vec3.y a)
           + (Vec3.z a - Vec3.z a) * (Vec3.z a - Vec3.z a))%R with 0%R by ring.
  apply sqrt_0.
Qed.

Lemma distance_nonneg (a b : Vec3.t) : (0 <= distance a b)%R.
Proof. unfold distance. apply sqrt_pos. Qed.

(** The distance between two points that differ in [z] only. *)
Lemma distance_vertical (x y z1 z2 : R) :
  (z2 <= z1)%R ->
  distance (Vec3.mk x y z1) (Vec3.mk x y z2) = (z1 - z2)%R.
Proof.
  intro H. unfold distance. simpl.
  replace ((x - x) * (x - x) + (y - y) * (y - y) + (z1 - z2) * (z1 - z2))%R
    with (Rsqr (z1 - z2)) by (unfold Rsqr; ring).
  apply sqrt_Rsqr. lra.
Qed.

(** ** The range check *)

Lemma isInRange_iff (h : Heap) (player : Player.t) (o : Objective) (r : Ref) :
  pos o = Some r ->
  isInRange h player o = true
  <-> (distance (h (Player.pos player)) (h r) < range o)%R.
Proof.
  intro Hpos. unfold isInRange. rewrite Hpos.
  destruct (Rgeb (distance (h (Player.pos player)) (h r)) (range o)) eqn:E.
  - apply Rgeb_true_iff in E. split; [discriminate | lra].
  - apply Rgeb_false_iff in E. split; [intros _; exact E | reflexivity].
Qed.

Lemma isInRange_own_position (h : Heap) (player : Player.t) (o : Objective) :
  pos o = Some (Player.pos player) ->
  (0 < range o)%R ->
  isInRange h player o = true.
Proof.
  intros Hpos Hr. apply (isInRange_iff h player o _ Hpos).
  rewrite distance_self. exact Hr.
Qed.

(** ** Setters *)

Lemma setRange_value (o : Objective) (r : R) :
  range (setRange o r) = if Rleb r 2 then 2%R else r.
Proof. reflexivity. Qed.

(** C8.  For every input [r] of [setRange] with [r <= 2] the stored range
    is exactly 2, and for every [r > 2] the stored range is [r]. *)
Theorem setRange_clamps (o : Objective) (r : R) :
  ((r <= 2)%R -> range (setRange o r) = 2%R)
  /\ ((r > 2)%R -> range (setRange o r) = r).
Proof.
  rewrite setRange_value. split; intro H.
  - apply Rleb_true_iff in H. rewrite H. reflexivity.
  - assert (K : Rleb r 2 = false) by (apply Rleb_false_iff; lra).
    rewrite K. reflexivity.
Qed.

Lemma setRange_clamps_witness :
  range (setRange goToPoint 1) = 2%R
  /\ range (setRange goToPoint 2) = 2%R
  /\ range (setRange goToPoint (-7)) = 2%R
  /\ range (setRange goToPoint 9) = 9%R.
Proof.
  repeat split.
  - apply (proj1 (setRange_clamps goToPoint 1)). lra.
  - apply (proj1 (setRange_clamps goToPoint 2)). lra.
  - apply (proj1 (setRange_clamps goToPoint (-7))). lra.
  - apply (proj2 (setRange_clamps goToPoint 9)). lra.
Defined.

(** The radius of an objective is at least 2 from its construction on:
    the constructor sets 5, [setRange] clamps, and no other operation
    assigns [range]. *)
Lemma range_newObjective (drawn : option string) (t f : Z) :
  (2 <= range (newObjective drawn t f))%R.
Proof. simpl. lra. Qed.

Lemma range_setRange (o : Objective) (r : R) : (2 <= range (setRange o r))%R.
Proof.
  rewrite setRange_value. destruct (Rleb r 2) eqn:E.
  - lra.
  - apply Rleb_false_iff in E. lra.
Qed.

Lemma range_setPosition (h : Heap) (o : Objective) (pos : option Ref) :
  range (snd (stateOf (setPosition h o pos))) = range o.
Proof. destruct pos; reflexivity. Qed.

(** ** Stages of [checkObjective] *)

Lemma dispatch_keeps (player : Player.t) (o : Objective) (args : list string)
  (valid : bool) :
  let o' := snd (fst (dispatch player o args valid)) in
  pos o' = pos o /\ range o' = range o /\ type o' = type o /\ flags o' = flags o
  /\ maxProgress o' = maxProgress o /\ rewards o' = rewards o.
Proof.
  unfold dispatch, capture, hold, mash, order.
  repeat match goal with
         | |- context [if ?c then _ else _] => destruct c; simpl
         end; repeat split.
Qed.

Lemma progressInit_keeps (o : Objective) (valid : bool) :
  let o' := progressInit o valid in
  pos o' = pos o /\ range o' = range o /\ type o' = type o /\ flags o' = flags o
  /\ maxProgress o' = maxProgress o /\ rewards o' = rewards o.
Proof.
  unfold progressInit.
  repeat match goal with
         | |- context [if ?c then _ else _] => destruct c; simpl
         end; repeat split.
Qed.

Lemma ensurePosition_set (player : Player.t) (o : Objective) (r : Ref) :
  pos o = Some r -> ensurePosition player o = o.
Proof. intro H. unfold ensurePosition. rewrite H. reflexivity. Qed.

Lemma ensurePosition_unset (player : Player.t) (o : Objective) :
  pos o = None -> ensurePosition player o = with_pos o (Some (Player.pos player)).
Proof. intro H. unfold ensurePosition. rewrite H. reflexivity. Qed.

Lemma checkObjective_pos (h : Heap) (player : Player.t) (o : Objective)
  (args : list string) :
  pos (snd (fst (checkObjective h player o args))) = pos (ensurePosition player o).
Proof.
  unfold checkObjective.
  destruct (dispatch_keeps player
              (progressInit (ensurePosition player o)
                 (gates h player (ensurePosition player o)))
              args (gates h player (ensurePosition player o))) as [K _].
  rewrite K.
  destruct (progressInit_keeps (ensurePosition player o)
              (gates h player (ensurePosition player o))) as [K' _].
  exact K'.
Qed.

(** A check whose range check fails returns false. *)
Lemma dispatch_invalid (player : Player.t) (o : Objective) (args : list string) :
  dispatch player o args false = (JsBool false, o, player).
Proof.
  unfold dispatch. rewrite !andb_false_r. reflexivity.
Qed.

Lemma gates_rangeGate_false (h : Heap) (player : Player.t) (o : Objective) :
  rangeGate h player o true = false -> gates h player o = false.
Proof.
  intro H. unfold gates. rewrite H.
  unfold onFootGate, inVehicleGate. rewrite !andb_false_r. reflexivity.
Qed.

(** ** The progress counter *)

Lemma isFlagged_PROGRESS_4 : isFlagged 4 Modifiers.PROGRESS = true.
Proof. reflexivity. Qed.

(** The guard [!this.progress] holds for 0 only, so [progressInit] never
    changes an integer progress counter. *)
Lemma progressInit_progress (o : Objective) (valid : bool) :
  progress (progressInit o valid) = progress o.
Proof.
  unfold progressInit, truthy.
  destruct (isFlagged (flags o) Modifiers.PROGRESS && valid); [| reflexivity].
  destruct (progress o =? 0) eqn:E; simpl; [| reflexivity].
  apply Z.eqb_eq in E. symmetry. exact E.
Qed.

(** C4.  [new Objective(1, 4)] carries the progress flag and has the default
    progress of -1; the progress stage of [checkObjective], run with every
    earlier check passed, leaves the counter at -1, and the first check of
    the objective ends with a progress of 0: the increment of [capture]
    started from -1. *)
Theorem progressInit_skips_default :
  isFlagged (flags trackedZone) Modifiers.PROGRESS = true
  /\ progress trackedZone = -1
  /\ gates heap0 player0 (ensurePosition player0 trackedZone) = true
  /\ progress (progressInit (ensurePosition player0 trackedZone) true) = -1
  /\ progress (snd (fst (checkObjective heap0 player0 trackedZone []))) = 0.
Proof.
  assert (G : gates heap0 player0 (ensurePosition player0 trackedZone) = true).
  { unfold gates, rangeGate.
    rewrite (isInRange_own_position heap0 player0
               (ensurePosition player0 trackedZone) eq_refl)
      by (simpl; lra).
    reflexivity. }
  repeat split; try reflexivity.
  - exact G.
  - unfold checkObjective. rewrite G. reflexivity.
Qed.

(** ** Reentrancy *)

(** Every attempt leaves a mark on the player: the trace only grows, and
    [attemptObjective] ends with an [emitMeta] on either path. *)
Lemma record_length (p : Player.t) (e : Event) :
  length (Player.trace (Player.record p e)) = S (length (Player.trace p)).
Proof.
  unfold Player.record. simpl. rewrite length_app. simpl. lia.
Qed.

Lemma playAnimation_length (p : Player.t) (o : Objective) :
  (length (Player.trace p) <= length (Player.trace (playAnimation p o)))%nat.
Proof.
  unfold playAnimation, Player.playAnimation. destruct (anim o).
  - rewrite record_length. lia.
  - lia.
Qed.

Lemma playEverySound_length (p : Player.t) (o : Objective) :
  (length (Player.trace p) <= length (Player.trace (playEverySound p o)))%nat.
Proof.
  unfold playEverySound, Player.playAudio. destruct (everySound o).
  - rewrite record_length. lia.
  - lia.
Qed.

Lemma counting_step_length (p : Player.t) (o : Objective) :
  (length (Player.trace p) <= length (Player.trace (snd (capture p o))))%nat
  /\ (length (Player.trace p) <= length (Player.trace (snd (hold p o))))%nat
  /\ (length (Player.trace p) <= length (Player.trace (snd (mash p o))))%nat.
Proof.
  unfold capture, hold, mash.
  destruct (progress (with_progress o (progress o + 1))
            <? maxProgress (with_progress o (progress o + 1)));
    cbn [snd]; repeat split; try lia;
    (eapply Nat.le_trans; [apply playAnimation_length | apply playEverySound_length]).
Qed.

Lemma dispatch_length (p : Player.t) (o : Objective) (args : list string)
  (valid : bool) :
  (length (Player.trace p)
   <= length (Player.trace (snd (dispatch p o args valid))))%nat.
Proof.
  unfold dispatch.
  destruct (counting_step_length p o) as (Hc & _ & _).
  destruct ((type o =? Objectives.CAPTURE) && valid).
  - destruct (capture p o) as [[v1 o1] p1]. cbn [snd] in Hc.
    destruct (counting_step_length p1 o1) as (_ & Hh & _).
    destruct ((type o1 =? Objectives.HOLD) && v1).
    + destruct (hold p1 o1) as [[v2 o2] p2]. cbn [snd] in Hh.
      destruct (counting_step_length p2 o2) as (_ & _ & Hm).
      destruct ((type o2 =? Objectives.MASH) && v2).
      * destruct (mash p2 o2) as [[v3 o3] p3]. cbn [snd] in Hm.
        unfold order. destruct ((type o3 =? Objectives.ORDER) && v3); cbn [snd]; lia.
      * unfold order. destruct ((type o2 =? Objectives.ORDER) && v2); cbn [snd]; lia.
    + destruct (counting_step_length p1 o1) as (_ & _ & Hm).
      destruct ((type o1 =? Objectives.MASH) && v1).
      * destruct (mash p1 o1) as [[v3 o3] p3]. cbn [snd] in Hm.
        unfold order. destruct ((type o3 =? Objectives.ORDER) && v3); cbn [snd]; lia.
      * unfold order. destruct ((type o1 =? Objectives.ORDER) && v1); cbn [snd]; lia.
  - destruct (counting_step_length p o) as (_ & Hh & _).
    destruct ((type o =? Objectives.HOLD) && valid).
    + destruct (hold p o) as [[v2 o2] p2]. cbn [snd] in Hh.
      destruct (counting_step_length p2 o2) as (_ & _ & Hm).
      destruct ((type o2 =? Objectives.MASH) && v2).
      * destruct (mash p2 o2) as [[v3 o3] p3]. cbn [snd] in Hm.
        unfold order. destruct ((type o3 =? Objectives.ORDER) && v3); cbn [snd]; lia.
      * unfold order. destruct ((type o2 =? Objectives.ORDER) && v2); cbn [snd]; lia.
    + destruct (counting_step_length p o) as (_ & _ & Hm).
      destruct ((type o =? Objectives.MASH) && valid).
      * destruct (mash p o) as [[v3 o3] p3]. cbn [snd] in Hm.
        unfold order. destruct ((type o3 =? Objectives.ORDER) && v3); cbn [snd]; lia.
      * unfold order. destruct ((type o =? Objectives.ORDER) && valid); cbn [snd]; lia.
Qed.

Lemma addEach_length (n : nat) (item : ItemDef.t) (p : Player.t) :
  (length (Player.trace p) <= length (Player.trace (addEach n item p)))%nat.
Proof.
  revert p. induction n as [| n IH]; intro p; simpl.
  - lia.
  - eapply Nat.le_trans; [| apply IH].
    unfold Player.send, Player.addItem. rewrite !record_length. lia.
Qed.

Lemma issueReward_length (Items : Catalog) (p : Player.t) (r : Reward.t) :
  (length (Player.trace p) <= length (Player.trace (issueReward Items p r)))%nat.
Proof.
  unfold issueReward.
  assert (H : (length (Player.trace p)
               <= length (Player.trace
                            (if (Reward.type r =? "xp")%string
                             then addXP p (Reward.prop r) (Reward.quantity r)
                             else p)))%nat).
  { destruct (Reward.type r =? "xp")%string; [| lia].
    unfold addXP. rewrite record_length. lia. }
  revert H.
  generalize (if (Reward.type r =? "xp")%string
              then addXP p (Reward.prop r) (Reward.quantity r) else p).
  intros p' H.
  destruct (Reward.type r =? "item")%string; [| exact H].
  destruct (Items (Reward.prop r)) as [item |].
  - destruct (ItemDef.stackable item).
    + unfold Player.send, Player.addItem. rewrite !record_length. lia.
    + eapply Nat.le_trans; [exact H | apply addEach_length].
  - unfold consoleLog. rewrite record_length. lia.
Qed.

Lemma issueRewards_length (Items : Catalog) (rs : list Reward.t) (p : Player.t) :
  (length (Player.trace p)
   <= length (Player.trace (fold_left (issueReward Items) rs p)))%nat.
Proof.
  revert p. induction rs as [| r rs IH]; intro p; simpl.
  - lia.
  - eapply Nat.le_trans; [apply issueReward_length | apply IH].
Qed.

Lemma attemptObjective_leaves_a_mark (Items : Catalog) (h : Heap)
  (p : Player.t) (o : Objective) (args : list string) :
  (length (Player.trace p)
   < length (Player.trace (snd (attemptObjective Items h p o args))))%nat.
Proof.
  unfold attemptObjective, checkObjective.
  pose proof (dispatch_length p
                (progressInit (ensurePosition p o) (gates h p (ensurePosition p o)))
                args (gates h p (ensurePosition p o))) as H.
  destruct (dispatch p
              (progressInit (ensurePosition p o) (gates h p (ensurePosition p o)))
              args (gates h p (ensurePosition p o))) as [[v o'] p'].
  cbn [snd] in H. destruct (toBoolean v); cbn [negb snd]; unfold Player.emitMeta;
    rewrite record_length.
  - destruct (1 <=? length (rewards o'))%nat.
    + pose proof (issueRewards_length Items (rewards o') p'). lia.
    + lia.
  - lia.
Qed.

(** C9.  When the player's [checking] flag is already set, [Job.check]
    returns at once, the job (its queue, the head objective's progress, the
    loop flag) and the player exactly as before.  The attempt logic of the
    head objective has not run: run on this player, flag set or not, it
    would have added to the player's trace. *)
Theorem check_while_checking_is_noop (Items : Catalog) (h : Heap) (j : Job.t)
  (player : Player.t) (args : list string) :
  Player.checking player = true ->
  Job.check Items h j player args = Returned (j, player)
  /\ (forall (first : Objective) (b : bool),
         Player.trace
           (snd (attemptObjective Items h (Player.with_checking player b) first args))
         <> Player.trace player).
Proof.
  intro H. split.
  - unfold Job.check. rewrite H. reflexivity.
  - intros first b E.
    pose proof (attemptObjective_leaves_a_mark Items h
                  (Player.with_checking player b) first args) as L.
    rewrite E in L. simpl in L. lia.
Qed.

Lemma check_while_checking_is_noop_witness :
  Job.check sampleItems heap0 loopJob busyPlayer [] = Returned (loopJob, busyPlayer).
Proof.
  apply (check_while_checking_is_noop sampleItems heap0 loopJob busyPlayer []).
  reflexivity.
Defined.

(** ** Capture, hold and mash *)

(** One check of a counting objective whose checks all pass: the counter
    goes up by one and the check succeeds once the counter has reached
    [maxProgress]. *)
Lemma checkObjective_counting (h : Heap) (player : Player.t) (o : Objective)
  (args : list string) :
  counting o ->
  gates h player (ensurePosition player o) = true ->
  fst (fst (checkObjective h player o args))
  = JsBool (negb (progress o + 1 <? maxProgress o))
  /\ snd (fst (checkObjective h player o args))
     = with_progress (ensurePosition player o) (progress o + 1).
Proof.
  intros Hkind Hg. unfold checkObjective. rewrite Hg.
  assert (Ht : type (ensurePosition player o) = type o)
    by (unfold ensurePosition; destruct (pos o); reflexivity).
  assert (Hp : progress (ensurePosition player o) = progress o)
    by (unfold ensurePosition; destruct (pos o); reflexivity).
  assert (Hm : maxProgress (ensurePosition player o) = maxProgress o)
    by (unfold ensurePosition; destruct (pos o); reflexivity).
  unfold counting in Hkind.
  rewrite <- Ht in Hkind. rewrite <- Hp, <- Hm. clear Ht Hp Hm Hg.
  destruct (ensurePosition player o) as [ty fl rw rg mp pr wd ps ht es fs an mk bl tg ir].
  simpl in *.
  unfold progressInit, dispatch, capture, hold, mash, order, truthy. simpl.
  destruct (isFlagged fl Modifiers.PROGRESS); simpl.
  - destruct (pr =? 0) eqn:E; simpl.
    + apply Z.eqb_eq in E. subst pr.
      destruct Hkind as [-> | [-> | ->]]; simpl;
        destruct (1 <? mp); simpl; split; reflexivity.
    + destruct Hkind as [-> | [-> | ->]]; simpl;
        destruct (pr + 1 <? mp); simpl; split; reflexivity.
  - destruct Hkind as [-> | [-> | ->]]; simpl;
      destruct (pr + 1 <? mp); simpl; split; reflexivity.
Qed.

Lemma attemptObjective_objective (Items : Catalog) (h : Heap) (player : Player.t)
  (o : Objective) (args : list string) :
  fst (fst (attemptObjective Items h player o args))
  = toBoolean (fst (fst (checkObjective h player o args)))
  /\ snd (fst (attemptObjective Items h player o args))
     = snd (fst (checkObjective h player o args)).
Proof.
  unfold attemptObjective.
  destruct (checkObjective h player o args) as [[v o'] p'].
  cbn [fst snd]. destruct (toBoolean v); simpl; split; reflexivity.
Qed.

Lemma attemptEach_cons (Items : Catalog) (h : Heap) (o : Objective)
  (player : Player.t) (rest : list Player.t) :
  counting o ->
  gates h player (ensurePosition player o) = true ->
  attemptEach Items h o (player :: rest)
  = (negb (progress o + 1 <? maxProgress o), progress o + 1)
      :: attemptEach Items h
           (with_progress (ensurePosition player o) (progress o + 1)) rest.
Proof.
  intros Hkind Hg.
  destruct (checkObjective_counting h player o [] Hkind Hg) as [Hv Ho].
  destruct (attemptObjective_objective Items h player o []) as [Av Ao].
  rewrite Hv in Av. rewrite Ho in Ao. cbn [toBoolean] in Av.
  simpl attemptEach.
  destruct (attemptObjective Items h player o []) as [[v o'] p'].
  simpl in Av, Ao. subst v o'.
  assert (Hp : progress (ensurePosition player o) = progress o)
    by (unfold ensurePosition; destruct (pos o); reflexivity).
  reflexivity.
Qed.

Lemma attemptEach_cons_positioned (Items : Catalog) (h : Heap) (o : Objective)
  (r : Ref) (player : Player.t) (rest : list Player.t) :
  pos o = Some r ->
  counting o ->
  gates h player o = true ->
  attemptEach Items h o (player :: rest)
  = (negb (progress o + 1 <? maxProgress o), progress o + 1)
      :: attemptEach Items h (with_progress o (progress o + 1)) rest.
Proof.
  intros Hpos Hkind Hg.
  rewrite attemptEach_cons; try assumption.
  - rewrite (ensurePosition_set player o r Hpos). reflexivity.
  - rewrite (ensurePosition_set player o r Hpos). exact Hg.
Qed.

(** C1 (as the code has it).  A capture, hold or mash objective without
    the progress flag, with [maxProgress = 5] and the default progress of
    -1, completes on the sixth attempt whose checks all pass: attempts 1 to
    5 return false and leave [progress] at 0, 1, 2, 3 and 4, and the sixth
    takes [progress] from 4 to 5 and returns true. *)
Theorem sixth_attempt_completes (Items : Catalog) (h : Heap) (o : Objective)
  (p1 p2 p3 p4 p5 p6 : Player.t) :
  counting o ->
  maxProgress o = 5 ->
  progress o = -1 ->
  isFlagged (flags o) Modifiers.PROGRESS = false ->
  (forall p, In p [p1; p2; p3; p4; p5; p6] ->
             gates h p (ensurePosition p1 o) = true) ->
  attemptEach Items h o [p1; p2; p3; p4; p5; p6]
  = [(false, 0); (false, 1); (false, 2); (false, 3); (false, 4); (true, 5)].
Proof.
  intros Hkind Hmax Hprog _ Hg.
  assert (Hpos : exists r, pos (ensurePosition p1 o) = Some r).
  { unfold ensurePosition. destruct (pos o) eqn:E.
    - exists r. exact E.
    - exists (Player.pos p1). reflexivity. }
  destruct Hpos as [r Hpos].
  assert (Hk1 : counting (ensurePosition p1 o))
    by (unfold counting, ensurePosition in *; destruct (pos o); exact Hkind).
  assert (Hm1 : maxProgress (ensurePosition p1 o) = 5)
    by (unfold ensurePosition; destruct (pos o); exact Hmax).
  rewrite attemptEach_cons by (try assumption; apply Hg; simpl; tauto).
  rewrite Hmax, Hprog.
  generalize dependent (ensurePosition p1 o). intros o1 Hg Hpos Hk1 Hm1.
  do 5 (rewrite (attemptEach_cons_positioned Items h _ r)
          by (try exact Hpos; try exact Hk1; apply Hg; simpl; tauto);
        cbn [progress maxProgress with_progress]; rewrite ?Hm1).
  reflexivity.
Qed.

Lemma gates_on_foot_at_position (h : Heap) (player : Player.t) (o : Objective) :
  pos o = Some (Player.pos player) ->
  (0 < range o)%R ->
  Player.vehicle player = None ->
  isFlagged (flags o) Modifiers.IN_VEHICLE = false ->
  gates h player o = true.
Proof.
  intros Hpos Hr Hv Hf. unfold gates, rangeGate, onFootGate, inVehicleGate.
  rewrite (isInRange_own_position h player o Hpos Hr), Hv, Hf. simpl.
  destruct (type o <=? 5); destruct (isFlagged (flags o) Modifiers.ON_FOOT);
    reflexivity.
Qed.

Lemma gates_player0 (h : Heap) (o : Objective) :
  pos o = Some 0%nat ->
  range o = 5%R ->
  isFlagged (flags o) Modifiers.IN_VEHICLE = false ->
  gates h player0 o = true.
Proof.
  intros Hpos Hr Hf. apply gates_on_foot_at_position; try assumption.
  - rewrite Hr. lra.
  - reflexivity.
Qed.

Lemma sixth_attempt_completes_witness :
  attemptEach sampleItems heap0 captureZone
    [player0; player0; player0; player0; player0; player0]
  = [(false, 0); (false, 1); (false, 2); (false, 3); (false, 4); (true, 5)].
Proof.
  apply (sixth_attempt_completes sampleItems heap0 captureZone
           player0 player0 player0 player0 player0 player0).
  - left. reflexivity.
  - reflexivity.
  - reflexivity.
  - reflexivity.
  - intros p Hin.
    assert (E : p = player0) by (simpl in Hin; intuition congruence).
    subst p. apply gates_player0; reflexivity.
Defined.

(** C1 (as stated).  The fifth passing attempt on [new Objective(1, 0)]
    still returns false, and the first one leaves [progress] at 0, not 1. *)
Lemma fifth_attempt_returns_false :
  attemptEach sampleItems heap0 captureZone
    [player0; player0; player0; player0; player0]
  = [(false, 0); (false, 1); (false, 2); (false, 3); (false, 4)].
Proof.
  rewrite attemptEach_cons;
    [| left; reflexivity | apply gates_player0; reflexivity].
  do 4 (rewrite (attemptEach_cons_positioned sampleItems heap0 _ 0%nat);
        [| reflexivity | left; reflexivity | apply gates_player0; reflexivity]).
  reflexivity.
Qed.

(** ** Advancing a job *)

(** [next] with something left after the head: what is left is not a
    marker, so the head is dropped, or kept at the tail when looping; the
    new head is published unless serialising it throws. *)
Lemma next_plain (name : string) (inf : bool) (last first : Objective)
  (rest : list Objective) (player : Player.t) :
  type first <> Objectives.INFINITE ->
  Job.next (Job.mk name (last :: first :: rest) inf) player
  = let j' :=
      Job.mk name (if inf then (first :: rest) ++ [last] else first :: rest)%list
        inf in
    let cleared := Player.emitMeta player "job:ClearObjective" (MBool true) in
    if circular first
    then ThrewTypeError (j', cleared)
    else Returned (j', Player.emitMeta cleared "job:Objective" (MJson first)).
Proof.
  intro H. apply Z.eqb_neq in H. unfold Job.next, stringify.
  destruct inf; simpl; rewrite H; simpl; destruct (circular first); reflexivity.
Qed.

(** [next] onto a marker while not yet looping: the marker is dropped and
    the loop flag set. *)
Lemma next_marker (name : string) (last m : Objective) (rest : list Objective)
  (player : Player.t) :
  type m = Objectives.INFINITE ->
  Job.next (Job.mk name (last :: m :: rest) false) player
  = let cleared := Player.emitMeta player "job:ClearObjective" (MBool true) in
    match stringify (hd_error rest) with
    | Some json =>
        Returned (Job.mk name rest true,
                  Player.emitMeta cleared "job:Objective" json)
    | None => ThrewTypeError (Job.mk name rest true, cleared)
    end.
Proof.
  intro H. unfold Job.next. simpl. rewrite H. reflexivity.
Qed.

(** [next] with nothing left after the head, looping or not: the queue is
    empty, "no objective" and "Job Complete" go to the player. *)
Lemma next_last (name : string) (inf : bool) (last : Objective) (player : Player.t) :
  Job.next (Job.mk name [last] inf) player
  = Returned
      (Job.mk name [] inf,
       Player.send
         (Player.emitMeta
            (Player.emitMeta player "job:ClearObjective" (MBool true))
            "job:Objective" MUndefined)
         "Job Complete").
Proof. reflexivity. Qed.

(** The job as [next] leaves it in the first of these cases, whether the
    publication went through or not. *)
Lemma next_plain_job (name : string) (inf : bool) (last first : Objective)
  (rest : list Objective) (player : Player.t) :
  type first <> Objectives.INFINITE ->
  fst (stateOf (Job.next (Job.mk name (last :: first :: rest) inf) player))
  = Job.mk name (if inf then (first :: rest) ++ [last] else first :: rest)%list inf.
Proof.
  intro H. rewrite (next_plain name inf last first rest player H). cbv zeta.
  destruct (circular first); reflexivity.
Qed.

Lemma next_marker_job (name : string) (last m : Objective) (rest : list Objective)
  (player : Player.t) :
  type m = Objectives.INFINITE ->
  fst (stateOf (Job.next (Job.mk name (last :: m :: rest) false) player))
  = Job.mk name rest true.
Proof.
  intro H. rewrite (next_marker name last m rest player H). cbv zeta.
  destruct (stringify (hd_error rest)); reflexivity.
Qed.

(** [next] brings nothing into the queue that was not in it. *)
Lemma next_subset (j : Job.t) (p : Player.t) (x : Objective) :
  In x (Job.objectives (fst (stateOf (Job.next j p)))) ->
  In x (Job.objectives j).
Proof.
  destruct j as [name q inf]. cbn [Job.objectives].
  destruct q as [| a [| b t]].
  - cbn. intros [].
  - rewrite next_last. cbn. intros [].
  - destruct (Z.eqb_spec (type b) Objectives.INFINITE) as [Hm | Hm].
    + assert (E : Job.objectives
                    (fst (stateOf (Job.next (Job.mk name (a :: b :: t) inf) p)))
                  = if inf then (t ++ [a])%list else t).
      { unfold Job.next.
        cbn [Job.objectives Job.infinite Job.name hd_error tl].
        destruct inf; cbn [app hd_error tl]; rewrite Hm, Z.eqb_refl;
          cbn [app hd_error tl];
          match goal with
          | |- context [stringify ?q] => destruct (stringify q)
          end; reflexivity. }
      rewrite E. intro H. destruct inf.
      * apply in_app_or in H. destruct H as [H | H].
        -- right. right. exact H.
        -- left. cbn in H. destruct H as [H | []]. exact H.
      * right. right. exact H.
    + rewrite (next_plain_job name inf a b t p Hm). cbn [Job.objectives].
      intro H. destruct inf.
      * apply in_app_or in H. destruct H as [H | H].
        -- right. exact H.
        -- left. cbn in H. destruct H as [H | []]. exact H.
      * right. exact H.
Qed.

Lemma nextTimes_subset (n : nat) (j : Job.t) (p : Player.t) (x : Objective) :
  In x (Job.objectives (fst (nextTimes n j p))) -> In x (Job.objectives j).
Proof.
  revert j p. induction n as [| n IH]; intros j p H.
  - exact H.
  - cbn [nextTimes] in H.
    destruct (stateOf (Job.next j p)) as [j' p'] eqn:E.
    apply (next_subset j p). rewrite E. cbn [fst]. apply (IH j' p'). exact H.
Qed.

(** C2 (as the code has it).  For a job whose queue is [A, B, marker, C]:
    the [next] after A makes B the head; the [next] after B sets the loop
    flag, drops the marker, which is never published, and leaves exactly
    [C], so C is the head.  A and B were completed before the flag was set
    and are not kept: whatever [next] does from then on, nothing but C is
    ever in the queue, and the head is never A again.  When the job is
    looping and something other than a marker is left after the head, the
    completed head, and nothing else, goes to the tail. *)
Theorem next_on_loop_job (name : string) (A B M C : Objective) (player : Player.t) :
  type B <> Objectives.INFINITE ->
  type M = Objectives.INFINITE ->
  let s1 := stateOf (Job.next (Job.mk name [A; B; M; C] false) player) in
  let s2 := stateOf (Job.next (fst s1) (snd s1)) in
  fst s1 = Job.mk name [B; M; C] false
  /\ fst s2 = Job.mk name [C] true
  /\ (circular B = false -> circular C = false ->
      Player.trace (snd s2)
      = (Player.trace player
         ++ [EmitMeta "job:ClearObjective" (MBool true);
             EmitMeta "job:Objective" (MJson B);
             EmitMeta "job:ClearObjective" (MBool true);
             EmitMeta "job:Objective" (MJson C)])%list)
  /\ (forall (n : nat) (x : Objective),
         In x (Job.objectives (fst (nextTimes n (fst s2) (snd s2)))) -> x = C)
  /\ (forall (D : Objective) (rest : list Objective) (q : Player.t),
         type D <> Objectives.INFINITE ->
         Job.objectives
           (fst (stateOf (Job.next (Job.mk name (C :: D :: rest) true) q)))
         = (D :: rest ++ [C])%list).
Proof.
  intros HB HM s1 s2.
  assert (E1 : fst s1 = Job.mk name [B; M; C] false).
  { subst s1. apply (next_plain_job name false A B [M; C] player HB). }
  assert (E2 : fst s2 = Job.mk name [C] true).
  { subst s2. rewrite E1. apply (next_marker_job name B M [C] _ HM). }
  split; [exact E1 |]. split; [exact E2 |]. split; [| split].
  - intros CB CC. subst s2 s1.
    rewrite (next_plain name false A B [M; C] player HB). cbv zeta. rewrite CB.
    cbn [stateOf fst snd].
    rewrite (next_marker name B M [C] _ HM). cbv zeta.
    unfold stringify. cbn [hd_error]. rewrite CC. cbn.
    rewrite <- !app_assoc. reflexivity.
  - intros n x H. apply nextTimes_subset in H. rewrite E2 in H.
    cbn in H. destruct H as [H | []]. symmetry. exact H.
  - intros D rest q HD. rewrite (next_plain_job name true C D rest q HD).
    reflexivity.
Qed.

Lemma next_on_loop_job_witness :
  fst (stateOf (Job.next
                  (fst (stateOf (Job.next loopJob player0)))
                  (snd (stateOf (Job.next loopJob player0)))))
  = Job.mk "loop" [stepC] true.
Proof.
  apply (next_on_loop_job "loop" stepA stepB infiniteMarker stepC player0).
  - discriminate.
  - reflexivity.
Defined.

(** C2 (as stated).  On [A, B, marker, C], once A, B and C have been
    completed in turn, the head is not A: A left the queue before the loop
    flag was set, and is not in the queue at all. *)
Lemma first_objective_does_not_return :
  let s1 := stateOf (Job.next loopJob player0) in
  let s2 := stateOf (Job.next (fst s1) (snd s1)) in
  let s3 := stateOf (Job.next (fst s2) (snd s2)) in
  Job.objectives (fst s2) = [stepC]
  /\ Job.infinite (fst s2) = true
  /\ hd_error (Job.objectives (fst s3)) <> Some stepA
  /\ ~ In stepA (Job.objectives (fst s3)).
Proof.
  cbv zeta.
  assert (E1 : Job.next loopJob player0
               = Returned
                   (Job.mk "loop" [stepB; infiniteMarker; stepC] false,
                    Player.emitMeta
                      (Player.emitMeta player0 "job:ClearObjective" (MBool true))
                      "job:Objective" (MJson stepB))).
  { apply (next_plain "loop" false stepA stepB [infiniteMarker; stepC] player0).
    discriminate. }
  rewrite E1. cbn [stateOf fst snd].
  rewrite (next_marker "loop" stepB infiniteMarker [stepC] _ eq_refl).
  cbn [stateOf fst snd stringify hd_error circular target stepC setHelpText
       with_helpText goToPoint newObjective].
  rewrite next_last. cbn [stateOf fst snd Job.objectives Job.infinite].
  repeat split.
  - discriminate.
  - intros [].
Qed.

(** ** Checking a job *)

(** A go-to-point objective without rewards whose checks pass is complete
    at once. *)
Lemma attemptObjective_point (Items : Catalog) (h : Heap) (player : Player.t)
  (o : Objective) (args : list string) :
  type o = Objectives.POINT ->
  rewards o = [] ->
  gates h player (ensurePosition player o) = true ->
  attemptObjective Items h player o args
  = (true, progressInit (ensurePosition player o) true,
     Player.emitMeta player "job:Objective" MUndefined).
Proof.
  intros Ht Hr Hg. unfold attemptObjective, checkObjective. rewrite Hg.
  destruct (progressInit_keeps (ensurePosition player o) true)
    as (_ & _ & Kt & _ & _ & Kr).
  assert (Ht' : type (ensurePosition player o) = Objectives.POINT)
    by (unfold ensurePosition; destruct (pos o); exact Ht).
  assert (Hr' : rewards (ensurePosition player o) = [])
    by (unfold ensurePosition; destruct (pos o); exact Hr).
  unfold dispatch. repeat (rewrite Kt, Ht'; simpl). rewrite Kr, Hr'. reflexivity.
Qed.

(** [check] on an empty queue: [this.objectives[0]] is undefined, the call
    of [attemptObjective] on it throws, and [player.checking], set just
    before, stays set. *)
Lemma check_empty_queue (Items : Catalog) (h : Heap) (j : Job.t)
  (player : Player.t) (args : list string) :
  Player.checking player = false ->
  Job.objectives j = [] ->
  Job.check Items h j player args
  = ThrewTypeError (j, Player.with_checking player true).
Proof.
  intros Hc Hq. unfold Job.check. rewrite Hc, Hq. reflexivity.
Qed.

(** C3.  The job with the single objective A, checked by a player standing
    at A: the first [check] completes A and [next] publishes "no objective"
    and "Job Complete", leaving an empty queue.  The following [check]
    throws a TypeError and leaves the player's [checking] flag set; only
    from then on is [check] a no-op, since the flag is never cleared. *)
Theorem check_after_completion_throws :
  let finished := Job.mk "single" [] false in
  let told :=
    Player.mk 0%nat None false
      [EmitMeta "job:Objective" MUndefined;
       EmitMeta "job:ClearObjective" (MBool true);
       EmitMeta "job:Objective" MUndefined;
       Send "Job Complete"] in
  Job.check sampleItems heap0 singleJob player0 [] = Returned (finished, told)
  /\ Job.check sampleItems heap0 finished told []
     = ThrewTypeError (finished, Player.with_checking told true)
  /\ Job.check sampleItems heap0 finished (Player.with_checking told true) []
     = Returned (finished, Player.with_checking told true).
Proof.
  cbv zeta. split; [| split].
  - unfold Job.check. cbn [Player.checking player0 Job.objectives singleJob
                             Job.add Job.new app].
    rewrite attemptObjective_point;
      [| reflexivity | reflexivity | apply gates_player0; reflexivity].
    reflexivity.
  - apply check_empty_queue; reflexivity.
  - reflexivity.
Qed.

(** ** Rewards *)

Lemma checkObjective_rewards (h : Heap) (player : Player.t) (o : Objective)
  (args : list string) :
  rewards (snd (fst (checkObjective h player o args))) = rewards o.
Proof.
  unfold checkObjective.
  destruct (dispatch_keeps player
              (progressInit (ensurePosition player o)
                 (gates h player (ensurePosition player o)))
              args (gates h player (ensurePosition player o)))
    as (_ & _ & _ & _ & _ & K).
  rewrite K.
  destruct (progressInit_keeps (ensurePosition player o)
              (gates h player (ensurePosition player o)))
    as (_ & _ & _ & _ & _ & K').
  rewrite K'. unfold ensurePosition. destruct (pos o); reflexivity.
Qed.

Lemma issueReward_item (Items : Catalog) (player : Player.t) (key : string)
  (q : Z) (item : ItemDef.t) :
  Items key = Some item ->
  issueReward Items player (Reward.mk "item" key q)
  = if ItemDef.stackable item
    then Player.send (Player.addItem player item q false) (addedMessage item)
    else addEach (Z.to_nat q) item player.
Proof.
  intro H. unfold issueReward. simpl. rewrite H. reflexivity.
Qed.

Lemma issueReward_unknown_item (Items : Catalog) (player : Player.t)
  (key : string) (q : Z) :
  Items key = None ->
  issueReward Items player (Reward.mk "item" key q)
  = consoleLog player (key ++ " was not found for a reward.").
Proof.
  intro H. unfold issueReward. simpl. rewrite H. reflexivity.
Qed.

(** C6.  An attempt that succeeds on an objective whose only reward is an
    item reward of quantity 3, the item being in the catalog: a stackable
    item is granted by one [addItem] call with quantity 3 (followed by one
    message); a non-stackable item by three [addItem] calls with quantity 1,
    each followed by a message, three messages in all.  Nothing else is
    done but the closing "job:Objective" publication. *)
Theorem item_reward_of_three (Items : Catalog) (h : Heap) (player : Player.t)
  (o : Objective) (args : list string) (key : string) (item : ItemDef.t) :
  fst (fst (checkObjective h player o args)) = JsBool true ->
  rewards o = [Reward.mk "item" key 3] ->
  Items key = Some item ->
  let before := Player.trace (snd (checkObjective h player o args)) in
  let after := Player.trace (snd (attemptObjective Items h player o args)) in
  let told := Send (addedMessage item) in
  fst (fst (attemptObjective Items h player o args)) = true
  /\ (ItemDef.stackable item = true ->
      after
      = (before
         ++ [AddItem item 3 false; told;
             EmitMeta "job:Objective" MUndefined])%list)
  /\ (ItemDef.stackable item = false ->
      after
      = (before
         ++ [AddItem item 1 false; told;
             AddItem item 1 false; told;
             AddItem item 1 false; told;
             EmitMeta "job:Objective" MUndefined])%list).
Proof.
  intros Hv Hr Hi before after told. subst before after told.
  pose proof (checkObjective_rewards h player o args) as Hrw.
  unfold attemptObjective.
  destruct (checkObjective h player o args) as [[v o'] p'].
  simpl in Hv, Hrw. subst v. rewrite Hr in Hrw. rewrite Hrw.
  cbn [toBoolean negb length Nat.leb fold_left fst snd].
  rewrite (issueReward_item Items p' key 3 item Hi).
  split; [reflexivity |]. split; intro Hs; rewrite Hs.
  - simpl. rewrite <- !app_assoc. reflexivity.
  - simpl. rewrite <- !app_assoc. reflexivity.
Qed.

Lemma checkObjective_point_player0 (o : Objective) :
  type o = Objectives.POINT ->
  flags o = Modifiers.MIN ->
  pos o = None ->
  range o = 5%R ->
  checkObjective heap0 player0 o [] = (JsBool true, with_pos o (Some 0%nat), player0).
Proof.
  intros Ht Hf Hp Hr.
  destruct o as [ty fl rw rg mp pr wd ps ht es fs an mk bl tg ir].
  simpl in Ht, Hf, Hp, Hr. subst ty fl ps rg.
  unfold checkObjective, ensurePosition. cbn [pos].
  rewrite gates_player0 by reflexivity. reflexivity.
Qed.

Lemma item_reward_of_three_witness :
  Player.trace (snd (attemptObjective sampleItems heap0 player0 suitReward []))
  = [AddItem trackSuit 1 false; Send "Track Suit was added to your inventory.";
     AddItem trackSuit 1 false; Send "Track Suit was added to your inventory.";
     AddItem trackSuit 1 false; Send "Track Suit was added to your inventory.";
     EmitMeta "job:Objective" MUndefined]
  /\ Player.trace (snd (attemptObjective sampleItems heap0 player0 bandageReward []))
     = [AddItem bandage 3 false; Send "Bandage was added to your inventory.";
        EmitMeta "job:Objective" MUndefined].
Proof.
  assert (S : checkObjective heap0 player0 suitReward []
              = (JsBool true, with_pos suitReward (Some 0%nat), player0))
    by (apply checkObjective_point_player0; reflexivity).
  assert (B : checkObjective heap0 player0 bandageReward []
              = (JsBool true, with_pos bandageReward (Some 0%nat), player0))
    by (apply checkObjective_point_player0; reflexivity).
  split.
  - pose proof (item_reward_of_three sampleItems heap0 player0 suitReward []
                  "TrackSuit" trackSuit) as T.
    rewrite S in T. apply T; reflexivity.
  - pose proof (item_reward_of_three sampleItems heap0 player0 bandageReward []
                  "Bandage" bandage) as T.
    rewrite B in T. apply T; reflexivity.
Defined.

(** ** What the setters assign *)

Ltac frame_off :=
  unfold agree_off; repeat split; intro; try reflexivity; congruence.

Lemma store_same (h : Heap) (r : Ref) (v : Vec3.t) : store h r v r = v.
Proof. unfold store. rewrite Nat.eqb_refl. reflexivity. Qed.

Lemma store_other (h : Heap) (r q : Ref) (v : Vec3.t) :
  q <> r -> store h r v q = h q.
Proof.
  intro H. unfold store. apply Nat.eqb_neq in H. rewrite H. reflexivity.
Qed.

(** C7 (as the code has it).  Every setter stores its argument (or the
    record made of its arguments) in its own field and leaves every other
    field of the objective alone, with two exceptions: [setRange] stores 2
    for a radius of 2 or less, and [setPosition] stores the position with
    its [z] lowered by 0.5, [x] and [y] as passed, no other point being
    touched.  [setPosition] reads [pos.z]: called without a point it throws
    and changes nothing.  The other setters read nothing from their
    arguments and have no error condition. *)
Theorem setters_assign (h : Heap) (o : Objective) :
  (forall p : Ref,
      let h' := fst (stateOf (setPosition h o (Some p))) in
      let o' := snd (stateOf (setPosition h o (Some p))) in
      setPosition h o (Some p) = Returned (h', o')
      /\ option_map h' (pos o')
         = Some (Vec3.mk (Vec3.x (h p)) (Vec3.y (h p)) (Vec3.z (h p) - 0.5)%R)
      /\ agree_off FPos o o'
      /\ (forall q : Ref, q <> p -> h' q = h q))
  /\ setPosition h o None = ThrewTypeError (h, o)
  /\ (forall r : R,
         range (setRange o r) = (if Rleb r 2 then 2%R else r)
         /\ agree_off FRange o (setRange o r))
  /\ (forall msg : string,
         helpText (setHelpText o msg) = Some msg
         /\ agree_off FHelpText o (setHelpText o msg))
  /\ (forall rs : list Reward.t,
         rewards (setRewards o rs) = rs
         /\ agree_off FRewards o (setRewards o rs))
  /\ (forall s : string,
         everySound (setEverySound o s) = Some s
         /\ agree_off FEverySound o (setEverySound o s))
  /\ (forall s : string,
         finishSound (setFinishSound o s) = Some s
         /\ agree_off FFinishSound o (setFinishSound o s))
  /\ (forall (dict name : string) (fl duration : Z),
         anim (setAnimation o dict name fl duration)
         = Some (Anim.mk dict name fl duration)
         /\ agree_off FAnim o (setAnimation o dict name fl duration))
  /\ (forall (ty : Z) (p dir rot scale : Ref) (r g b a : Z),
         marker (setMarker o ty p dir rot scale r g b a)
         = Some (Marker.mk ty p dir rot scale r g b a)
         /\ agree_off FMarker o (setMarker o ty p dir rot scale r g b a))
  /\ (forall (sprite color : Z) (p : Ref),
         blip (setBlip o sprite color p) = Some (Blip.mk sprite color p)
         /\ agree_off FBlip o (setBlip o sprite color p))
  /\ (forall (t : Target.entity) (kind : string),
         target (setTarget o t kind) = Some (Target.mk t kind)
         /\ agree_off FTarget o (setTarget o t kind))
  /\ (forall items : list ItemRestriction.t,
         itemRestrictions (setItemRestrictions o items) = Some items
         /\ agree_off FItemRestrictions o (setItemRestrictions o items)).
Proof.
  repeat match goal with
         | |- _ /\ _ => split
         end.
  - intros p h' o'. subst h' o'. unfold setPosition. cbn [stateOf fst snd].
    split; [reflexivity |]. split; [| split; [frame_off |]].
    + cbn [pos with_pos option_map]. rewrite store_same. reflexivity.
    + intros q Hq. apply store_other. exact Hq.
  - reflexivity.
  - intro r. split; [reflexivity | frame_off].
  - intro msg. split; [reflexivity | frame_off].
  - intro rs. split; [reflexivity | frame_off].
  - intro s. split; [reflexivity | frame_off].
  - intro s. split; [reflexivity | frame_off].
  - intros. split; [reflexivity | frame_off].
  - intros. split; [reflexivity | frame_off].
  - intros. split; [reflexivity | frame_off].
  - intros. split; [reflexivity | frame_off].
  - intros. split; [reflexivity | frame_off].
Qed.

(** C7 (as stated).  [setPosition] called with the point (0, 0, 3): the
    position the objective has afterwards is (0, 0, 2.5), not the value
    passed. *)
Lemma setPosition_lowers_the_point :
  let h' := fst (stateOf (setPosition heap1 goToPoint (Some 1%nat))) in
  let o' := snd (stateOf (setPosition heap1 goToPoint (Some 1%nat))) in
  heap1 1%nat = Vec3.mk 0 0 3
  /\ pos o' = Some 1%nat
  /\ h' 1%nat = Vec3.mk 0 0 (3 - 0.5)
  /\ h' 1%nat <> heap1 1%nat.
Proof.
  cbv zeta. repeat split.
  change (Vec3.mk 0 0 (3 - 0.5) <> Vec3.mk 0 0 3).
  intro H. injection H as H. lra.
Qed.

(** The lowered point is shared: a marker given the same reference before
    [setPosition] ran sees the lowered [z] as well. *)
Lemma setPosition_aliasing :
  let o := setMarker goToPoint 1 1%nat 0%nat 0%nat 0%nat 0 255 0 100 in
  let h' := fst (stateOf (setPosition heap1 o (Some 1%nat))) in
  let o' := snd (stateOf (setPosition heap1 o (Some 1%nat))) in
  option_map (fun m => Vec3.z (h' (Marker.pos m))) (marker o') = Some (3 - 0.5)%R.
Proof. reflexivity. Qed.

(** * Further properties *)

(** ** Modifier flags *)

Lemma toInt32_small (n : Z) :
  -2147483648 <= n < 2147483648 -> toInt32 n = n.
Proof.
  intro H. unfold toInt32. rewrite Z.mod_small by lia. lia.
Qed.

Lemma land_pow2 (x j : Z) :
  0 <= j -> Z.land x (2 ^ j) = if Z.testbit x j then 2 ^ j else 0.
Proof.
  intro Hj. apply Z.bits_inj'. intros n Hn.
  rewrite Z.land_spec, Z.pow2_bits_eqb by exact Hj.
  destruct (Z.eqb_spec j n) as [-> | Hne].
  - destruct (Z.testbit x n).
    + rewrite Z.pow2_bits_eqb, Z.eqb_refl by exact Hn. reflexivity.
    + rewrite Z.bits_0. reflexivity.
  - rewrite andb_false_r. destruct (Z.testbit x j).
    + rewrite Z.pow2_bits_eqb by exact Hj. symmetry. apply Z.eqb_neq. exact Hne.
    + rewrite Z.bits_0. reflexivity.
Qed.

Lemma pow2_int32 (j : Z) : 0 <= j < 31 -> 0 < 2 ^ j < 2147483648.
Proof.
  intro H. split.
  - apply Z.pow_pos_nonneg; lia.
  - change 2147483648 with (2 ^ 31). apply Z.pow_lt_mono_r; lia.
Qed.

(** On a 32-bit set of flags, testing a single flag reads its bit. *)
Lemma isFlagged_testbit (x j : Z) :
  -2147483648 <= x < 2147483648 ->
  0 <= j < 31 ->
  isFlagged x (2 ^ j) = Z.testbit x j.
Proof.
  intros Hx Hj. pose proof (pow2_int32 j Hj) as Hp. unfold isFlagged.
  rewrite (toInt32_small x Hx), (toInt32_small (2 ^ j)) by lia.
  rewrite land_pow2 by lia.
  destruct (Z.testbit x j).
  - rewrite Z.eqb_refl. reflexivity.
  - destruct (Z.eqb_spec 0 (2 ^ j)); [lia | reflexivity].
Qed.

Lemma lor_pow2_int32 (f i : Z) :
  0 <= f < 2147483648 -> 0 <= i < 31 -> 0 <= Z.lor f (2 ^ i) < 2147483648.
Proof.
  intros Hf Hi. pose proof (pow2_int32 i Hi) as Hp.
  assert (E : Z.lor f (2 ^ i) = Z.lor f (2 ^ i) mod 2 ^ 31).
  { rewrite <- Z.land_ones by lia. rewrite Z.land_lor_distr_l.
    rewrite !Z.land_ones by lia.
    change (2 ^ 31) with 2147483648. rewrite !Z.mod_small by lia. reflexivity. }
  rewrite E. change (2 ^ 31) with 2147483648. apply Z.mod_pos_bound. lia.
Qed.

(** X1.  Flags combine with [|] and are read back with [isFlagged]: after
    the single-bit flag [2^i] has been or-ed into a set of flags, testing
    the single-bit flag [2^j] answers true for that flag and answers as
    before for every other one. *)
Theorem isFlagged_after_lor (f i j : Z) :
  0 <= f < 2147483648 ->
  0 <= i < 31 ->
  0 <= j < 31 ->
  isFlagged (Z.lor f (2 ^ i)) (2 ^ j) = (i =? j) || isFlagged f (2 ^ j).
Proof.
  intros Hf Hi Hj. pose proof (lor_pow2_int32 f i Hf Hi) as Hl.
  rewrite !isFlagged_testbit by lia.
  rewrite Z.lor_spec, Z.pow2_bits_eqb by lia. apply orb_comm.
Qed.

Lemma isFlagged_after_lor_witness :
  isFlagged (Z.lor Modifiers.ON_FOOT (2 ^ 2)) (2 ^ 2) = true
  /\ isFlagged (Z.lor Modifiers.ON_FOOT (2 ^ 2)) (2 ^ 1)
     = isFlagged Modifiers.ON_FOOT (2 ^ 1).
Proof.
  split.
  - rewrite (isFlagged_after_lor Modifiers.ON_FOOT 2 2);
      [reflexivity | unfold Modifiers.ON_FOOT; lia | lia | lia].
  - rewrite (isFlagged_after_lor Modifiers.ON_FOOT 2 1);
      [reflexivity | unfold Modifiers.ON_FOOT; lia | lia | lia].
Defined.

(** X2.  [Modifiers.MIN] is 0, and [isFlagged] answers true for it on
    every set of flags: [(flags & 0) === 0]. *)
Theorem isFlagged_MIN (f : Z) : isFlagged f Modifiers.MIN = true.
Proof.
  unfold isFlagged, Modifiers.MIN.
  change (toInt32 0) with 0. rewrite Z.land_0_r. reflexivity.
Qed.

(** ** Drawing the word *)

Lemma Int_part_bounds (x : R) (n : Z) :
  (0 <= x < IZR n)%R -> 0 <= Int_part x < n.
Proof.
  intros [H0 Hn]. destruct (base_Int_part x) as [Hle Hgt]. split.
  - assert (H : (IZR (-1) < IZR (Int_part x))%R) by (simpl; lra).
    apply lt_IZR in H. lia.
  - apply lt_IZR. lra.
Qed.

(** X3.  With [Math.random()] in [0, 1): a dictionary of two or more words
    yields a word at an index below [length - 1], so its last word is never
    drawn; a dictionary of one word yields that word; an empty dictionary
    yields [undefined]. *)
Theorem getWord_never_last (Dictionary : list string) (random : R) :
  (0 <= random < 1)%R ->
  (Dictionary = [] -> getWord Dictionary random = None)
  /\ (forall w, Dictionary = [w] -> getWord Dictionary random = Some w)
  /\ ((2 <= length Dictionary)%nat ->
      exists (i : nat) (w : string),
        (i < length Dictionary - 1)%nat
        /\ nth_error Dictionary i = Some w
        /\ getWord Dictionary random = Some w).
Proof.
  intros [H0 H1]. split; [| split].
  - intros ->. unfold getWord.
    destruct (Int_part (random * (INR (length (@nil string)) - 1)) <? 0);
      [reflexivity |].
    destruct (Z.to_nat _); reflexivity.
  - intros w ->. unfold getWord. simpl length.
    replace (random * (INR 1 - 1))%R with 0%R by (simpl; ring).
    replace (Int_part 0) with 0; [reflexivity |].
    apply Int_part_spec. simpl. lra.
  - intro Hlen. unfold getWord.
    set (n := length Dictionary) in *.
    assert (Hn : (INR n - 1 = IZR (Z.of_nat n - 1))%R)
      by (rewrite minus_IZR, <- INR_IZR_INZ; reflexivity).
    assert (Hpos : (1 <= INR n - 1)%R).
    { rewrite Hn. apply IZR_le. lia. }
    assert (B : 0 <= Int_part (random * (INR n - 1)) < Z.of_nat n - 1).
    { apply Int_part_bounds. rewrite <- Hn. split; nra. }
    destruct (Z.ltb_spec (Int_part (random * (INR n - 1))) 0) as [K | _]; [lia |].
    set (i := Z.to_nat (Int_part (random * (INR n - 1)))).
    assert (Hi : (i < n - 1)%nat) by (subst i; lia).
    destruct (nth_error Dictionary i) as [w |] eqn:E.
    + exists i, w. repeat split; assumption.
    + apply nth_error_None in E. fold n in E. lia.
Qed.

Lemma getWord_never_last_witness :
  exists (i : nat) (w : string),
    (i < length ["alpha"; "beta"; "gamma"] - 1)%nat
    /\ nth_error ["alpha"; "beta"; "gamma"] i = Some w
    /\ getWord ["alpha"; "beta"; "gamma"] (1 / 2) = Some w.
Proof.
  apply (getWord_never_last ["alpha"; "beta"; "gamma"] (1 / 2)).
  - lra.
  - simpl. lia.
Defined.

(** ** Configured objectives *)

Lemma callSetter_keeps (h : Heap) (o : Objective) (c : SetterCall) :
  let o' := snd (callSetter (h, o) c) in
  type o' = type o /\ flags o' = flags o /\ maxProgress o' = maxProgress o
  /\ progress o' = progress o /\ word o' = word o
  /\ ((2 <= range o)%R -> (2 <= range o')%R).
Proof.
  destruct c; cbn [callSetter snd]; repeat split;
    try reflexivity; try (intro; assumption).
  intros _. apply range_setRange.
Qed.

(** X4.  Whatever setters are called on a freshly constructed objective,
    and in whatever order, its range stays at 2 or more, its kind, flags
    and word stay as constructed, and [maxProgress] and [progress] keep
    their defaults of 5 and -1: no setter reaches them. *)
Theorem configured_objective_invariant (drawn : option string) (t f : Z)
  (h : Heap) (calls : list SetterCall) :
  let o := snd (callSetters (h, newObjective drawn t f) calls) in
  (2 <= range o)%R
  /\ maxProgress o = 5
  /\ progress o = -1
  /\ type o = t
  /\ flags o = f
  /\ word o = (if t =? 5 then drawn else None).
Proof.
  cbv zeta. unfold callSetters.
  assert (G : forall calls s,
             (2 <= range (snd s))%R ->
             let o := snd (fold_left callSetter calls s) in
             (2 <= range o)%R
             /\ maxProgress o = maxProgress (snd s)
             /\ progress o = progress (snd s)
             /\ type o = type (snd s)
             /\ flags o = flags (snd s)
             /\ word o = word (snd s)).
  { clear. induction calls as [| c calls IH]; intros [h o] Hr; simpl.
    - repeat split. exact Hr.
    - destruct (callSetter_keeps h o c) as (Kt & Kf & Km & Kp & Kw & Kr).
      simpl in Hr. specialize (IH (callSetter (h, o) c) (Kr Hr)).
      simpl in IH. destruct IH as (I1 & I2 & I3 & I4 & I5 & I6).
      simpl. rewrite I2, I3, I4, I5, I6. repeat split; assumption. }
  apply (G calls (h, newObjective drawn t f)). simpl. lra.
Qed.

Lemma callSetter_point (h : Heap) (o : Objective) (c : SetterCall) (q : Ref) :
  let h' := fst (callSetter (h, o) c) in
  Vec3.x (h' q) = Vec3.x (h q)
  /\ Vec3.y (h' q) = Vec3.y (h q)
  /\ Vec3.z (h' q) = (Vec3.z (h q) - 0.5 * INR (timesPositioned q [c]))%R.
Proof.
  destruct c; simpl; try (repeat split; lra).
  unfold store. destruct (Nat.eqb_spec p q) as [-> | Hne].
  - rewrite Nat.eqb_refl. simpl. repeat split; lra.
  - assert (E : Nat.eqb q p = false) by (apply Nat.eqb_neq; congruence).
    rewrite E. simpl. repeat split; lra.
Qed.

Lemma timesPositioned_cons (q : Ref) (c : SetterCall) (calls : list SetterCall) :
  timesPositioned q (c :: calls)
  = (timesPositioned q [c] + timesPositioned q calls)%nat.
Proof.
  destruct c; simpl; try reflexivity.
  destruct (Nat.eqb p q); reflexivity.
Qed.

(** X5.  [setPosition] lowers the point it is given each time it is
    called: after any sequence of setter calls, a point that was passed to
    [setPosition] [n] times has its [z] lowered by [n * 0.5], its [x] and
    [y] unchanged; points never passed are untouched. *)
Theorem setPosition_accumulates (h : Heap) (o : Objective)
  (calls : list SetterCall) (q : Ref) :
  let h' := fst (callSetters (h, o) calls) in
  Vec3.x (h' q) = Vec3.x (h q)
  /\ Vec3.y (h' q) = Vec3.y (h q)
  /\ Vec3.z (h' q) = (Vec3.z (h q) - 0.5 * INR (timesPositioned q calls))%R.
Proof.
  cbv zeta. unfold callSetters. revert h o.
  induction calls as [| c calls IH]; intros h o.
  - simpl. repeat split; lra.
  - rewrite timesPositioned_cons, plus_INR.
    cbn [fold_left].
    destruct (callSetter_point h o c q) as (Cx & Cy & Cz).
    destruct (callSetter (h, o) c) as [h1 o1]. cbn [fst] in Cx, Cy, Cz.
    destruct (IH h1 o1) as (Ix & Iy & Iz).
    rewrite Ix, Iy, Iz, Cx, Cy, Cz. repeat split; lra.
Qed.

(** ** The outcome of a check, kind by kind *)

Lemma strategy_type (p : Player.t) (o : Objective) :
  type (snd (fst (capture p o))) = type o
  /\ type (snd (fst (hold p o))) = type o
  /\ type (snd (fst (mash p o))) = type o.
Proof.
  unfold capture, hold, mash.
  destruct (progress (with_progress o (progress o + 1))
            <? maxProgress (with_progress o (progress o + 1)));
    repeat split.
Qed.

(** The four dispatch statements amount to one choice on the kind: the
    strategies leave the kind alone, so at most one of them runs. *)
Lemma dispatch_eq (p : Player.t) (o : Objective) (args : list string)
  (valid : bool) :
  dispatch p o args valid
  = if valid
    then if type o =? Objectives.CAPTURE then checked (capture p o)
         else if type o =? Objectives.HOLD then checked (hold p o)
         else if type o =? Objectives.MASH then checked (mash p o)
         else if type o =? Objectives.ORDER then order p o args
         else (JsBool true, o, p)
    else (JsBool false, o, p).
Proof.
  destruct valid; [| apply dispatch_invalid].
  destruct (strategy_type p o) as (Tc & Th & Tm).
  unfold dispatch.
  destruct (type o =? Objectives.CAPTURE) eqn:E1; cbn [andb].
  { apply Z.eqb_eq in E1. rewrite E1 in Tc.
    destruct (capture p o) as [[v1 o1] p1]. cbn [fst snd] in Tc.
    repeat (rewrite Tc; cbn). reflexivity. }
  destruct (type o =? Objectives.HOLD) eqn:E2; cbn [andb].
  { apply Z.eqb_eq in E2. rewrite E2 in Th.
    destruct (hold p o) as [[v1 o1] p1]. cbn [fst snd] in Th.
    repeat (rewrite Th; cbn). reflexivity. }
  destruct (type o =? Objectives.MASH) eqn:E3; cbn [andb].
  { apply Z.eqb_eq in E3. rewrite E3 in Tm.
    destruct (mash p o) as [[v1 o1] p1]. cbn [fst snd] in Tm.
    repeat (rewrite Tm; cbn). reflexivity. }
  destruct (type o =? Objectives.ORDER); reflexivity.
Qed.

Lemma checked_parts (r : bool * Objective * Player.t) :
  fst (fst (checked r)) = JsBool (fst (fst r))
  /\ snd (fst (checked r)) = snd (fst r)
  /\ snd (checked r) = snd r.
Proof. destruct r as [[b o] p]. repeat split. Qed.

Lemma checked_fst (r : bool * Objective * Player.t) :
  fst (fst (checked r)) = JsBool (fst (fst r)).
Proof. apply checked_parts. Qed.

Lemma checked_snd (r : bool * Objective * Player.t) : snd (checked r) = snd r.
Proof. apply checked_parts. Qed.

Lemma checked_obj (r : bool * Objective * Player.t) :
  snd (fst (checked r)) = snd (fst r).
Proof. apply checked_parts. Qed.

Lemma progressInit_invalid (o : Objective) : progressInit o false = o.
Proof. unfold progressInit. rewrite andb_false_r. reflexivity. Qed.

(** A check whose range or vehicle checks fail changes nothing but the
    defaulted position. *)
Lemma checkObjective_gates_false (h : Heap) (p : Player.t) (o : Objective)
  (args : list string) :
  gates h p (ensurePosition p o) = false ->
  checkObjective h p o args = (JsBool false, ensurePosition p o, p).
Proof.
  intro H. unfold checkObjective. rewrite H, progressInit_invalid.
  apply dispatch_invalid.
Qed.

Lemma ensurePosition_flags (p : Player.t) (o : Objective) :
  flags (ensurePosition p o) = flags o /\ type (ensurePosition p o) = type o
  /\ progress (ensurePosition p o) = progress o
  /\ maxProgress (ensurePosition p o) = maxProgress o
  /\ range (ensurePosition p o) = range o.
Proof. unfold ensurePosition. destruct (pos o); repeat split. Qed.

Lemma gates_in_vehicle_on_foot (h : Heap) (p : Player.t) (o : Objective) :
  isFlagged (flags o) Modifiers.ON_FOOT = true ->
  Player.vehicle p <> None ->
  gates h p o = false.
Proof.
  intros Hf Hv. unfold gates, onFootGate, inVehicleGate. rewrite Hf.
  destruct (rangeGate h p o true); destruct (Player.vehicle p);
    try contradiction; cbn [andb]; rewrite ?andb_false_r; reflexivity.
Qed.

Lemma gates_on_foot_in_vehicle (h : Heap) (p : Player.t) (o : Objective) :
  isFlagged (flags o) Modifiers.IN_VEHICLE = true ->
  Player.vehicle p = None ->
  gates h p o = false.
Proof.
  intros Hf Hv. unfold gates, onFootGate, inVehicleGate. rewrite Hf, Hv.
  destruct (rangeGate h p o true);
    destruct (isFlagged (flags o) Modifiers.ON_FOOT);
    cbn [andb]; reflexivity.
Qed.

(** X6.  An objective flagged on-foot fails its check for a player in a
    vehicle, and one flagged in-vehicle fails it for a player on foot,
    wherever the player stands and whatever the progress: the check returns
    false, and leaves the progress counter and the player untouched. *)
Theorem vehicle_gates_fail (h : Heap) (p : Player.t) (o : Objective)
  (args : list string) :
  (isFlagged (flags o) Modifiers.ON_FOOT = true /\ Player.vehicle p <> None)
  \/ (isFlagged (flags o) Modifiers.IN_VEHICLE = true /\ Player.vehicle p = None) ->
  checkObjective h p o args = (JsBool false, ensurePosition p o, p)
  /\ progress (ensurePosition p o) = progress o.
Proof.
  intro H. destruct (ensurePosition_flags p o) as (Ef & _ & Ep & _).
  split; [| exact Ep].
  apply checkObjective_gates_false.
  destruct H as [[Hf Hv] | [Hf Hv]].
  - apply gates_in_vehicle_on_foot; [rewrite Ef; exact Hf | exact Hv].
  - apply gates_on_foot_in_vehicle; [rewrite Ef; exact Hf | exact Hv].
Qed.

Lemma vehicle_gates_fail_witness :
  checkObjective heap0 (Player.mk 0%nat (Some 7%nat) false [])
    (newObjective None Objectives.CAPTURE Modifiers.ON_FOOT) []
  = (JsBool false,
     ensurePosition (Player.mk 0%nat (Some 7%nat) false [])
       (newObjective None Objectives.CAPTURE Modifiers.ON_FOOT),
     Player.mk 0%nat (Some 7%nat) false []).
Proof.
  apply (vehicle_gates_fail heap0 (Player.mk 0%nat (Some 7%nat) false [])
           (newObjective None Objectives.CAPTURE Modifiers.ON_FOOT) []).
  left. split; [reflexivity | discriminate].
Defined.

(** X7.  An objective flagged both on-foot and in-vehicle can never be
    completed: its check returns false for every player. *)
Theorem conflicting_vehicle_flags_never_pass (Items : Catalog) (h : Heap)
  (p : Player.t) (o : Objective) (args : list string) :
  isFlagged (flags o) Modifiers.ON_FOOT = true ->
  isFlagged (flags o) Modifiers.IN_VEHICLE = true ->
  fst (fst (checkObjective h p o args)) = JsBool false
  /\ fst (fst (attemptObjective Items h p o args)) = false.
Proof.
  intros H1 H2. destruct (ensurePosition_flags p o) as (Ef & _).
  assert (C : checkObjective h p o args = (JsBool false, ensurePosition p o, p)).
  { apply checkObjective_gates_false. destruct (Player.vehicle p) eqn:Ev.
    - apply gates_in_vehicle_on_foot; [rewrite Ef; exact H1 | rewrite Ev; discriminate].
    - apply gates_on_foot_in_vehicle; [rewrite Ef; exact H2 | exact Ev]. }
  split.
  - rewrite C. reflexivity.
  - destruct (attemptObjective_objective Items h p o args) as [A _].
    rewrite A, C. reflexivity.
Qed.

Lemma conflicting_vehicle_flags_never_pass_witness :
  fst (fst (checkObjective heap0 player0 (newObjective None Objectives.POINT 3) []))
  = JsBool false
  /\ fst (fst (attemptObjective sampleItems heap0 player0
                 (newObjective None Objectives.POINT 3) []))
     = false.
Proof.
  apply (conflicting_vehicle_flags_never_pass sampleItems heap0 player0
           (newObjective None Objectives.POINT 3) []); reflexivity.
Defined.

(** X8.  A navigable objective with a set position, checked by a player
    at a distance of the range or more: the check and the attempt return
    false, the objective is exactly as before, and all the player gets is
    the "job:Progress" publication of the unchanged progress. *)
Theorem out_of_range_changes_nothing (Items : Catalog) (h : Heap)
  (p : Player.t) (o : Objective) (r : Ref) (args : list string) :
  type o <= 5 ->
  pos o = Some r ->
  (range o <= distance (h (Player.pos p)) (h r))%R ->
  checkObjective h p o args = (JsBool false, o, p)
  /\ attemptObjective Items h p o args
     = (false, o, Player.emitMeta p "job:Progress" (MNumber (progress o))).
Proof.
  intros Ht Hpos Hd.
  assert (C : checkObjective h p o args = (JsBool false, o, p)).
  { rewrite <- (ensurePosition_set p o r Hpos) at 2.
    apply checkObjective_gates_false.
    rewrite (ensurePosition_set p o r Hpos).
    apply gates_rangeGate_false. unfold rangeGate.
    apply Z.leb_le in Ht. rewrite Ht.
    destruct (isInRange h p o) eqn:E; [| reflexivity].
    apply (isInRange_iff h p o r Hpos) in E. lra. }
  split; [exact C |].
  unfold attemptObjective. rewrite C. reflexivity.
Qed.

Lemma out_of_range_changes_nothing_witness :
  checkObjective heap1 (Player.mk 1%nat None false [])
    (with_range (with_pos captureZone (Some 0%nat)) 2) []
  = (JsBool false, with_range (with_pos captureZone (Some 0%nat)) 2,
     Player.mk 1%nat None false []).
Proof.
  apply (out_of_range_changes_nothing sampleItems heap1
           (Player.mk 1%nat None false [])
           (with_range (with_pos captureZone (Some 0%nat)) 2) 0%nat []).
  - simpl. unfold Objectives.CAPTURE. lia.
  - reflexivity.
  - change (2 <= distance (Vec3.mk 0 0 3) (Vec3.mk 0 0 0))%R.
    rewrite distance_vertical by lra. lra.
Defined.

Lemma progressInit_type (o : Objective) (valid : bool) :
  type (progressInit o valid) = type o.
Proof. destruct (progressInit_keeps o valid) as (_ & _ & K & _). exact K. Qed.

Lemma checkObjective_type_arg (h : Heap) (p : Player.t) (o : Objective) :
  type (progressInit (ensurePosition p o) (gates h p (ensurePosition p o)))
  = type o.
Proof.
  rewrite progressInit_type. destruct (ensurePosition_flags p o) as (_ & K & _).
  exact K.
Qed.

(** X9.  An ordered-keys objective can never be completed: [order] has
    no body, so its check hands back [undefined] when the range and vehicle
    checks pass and false when they do not; either way the attempt returns
    false, and a [check] of a job whose head is such an objective returns
    with the queue as long as before, an ordered-keys objective still at
    its head, and the loop flag as it was. *)
Theorem order_never_completes (Items : Catalog) (h : Heap) (p : Player.t)
  (o : Objective) (args : list string) :
  type o = Objectives.ORDER ->
  fst (fst (checkObjective h p o args))
  = (if gates h p (ensurePosition p o) then JsUndefined else JsBool false)
  /\ fst (fst (attemptObjective Items h p o args)) = false
  /\ (forall (name : string) (rest : list Objective) (inf : bool),
         Player.checking p = false ->
         exists j' p',
           Job.check Items h (Job.mk name (o :: rest) inf) p args
           = Returned (j', p')
           /\ length (Job.objectives j') = S (length rest)
           /\ option_map type (hd_error (Job.objectives j'))
              = Some Objectives.ORDER
           /\ Job.infinite j' = inf).
Proof.
  intro Ht.
  assert (C : forall q,
             fst (fst (checkObjective h q o args))
             = (if gates h q (ensurePosition q o) then JsUndefined
                else JsBool false)).
  { intro q. unfold checkObjective.
    rewrite dispatch_eq, checkObjective_type_arg, Ht.
    destruct (gates h q (ensurePosition q o)); reflexivity. }
  assert (F : forall q, fst (fst (attemptObjective Items h q o args)) = false).
  { intro q. destruct (attemptObjective_objective Items h q o args) as [B _].
    rewrite B, C. destruct (gates h q (ensurePosition q o)); reflexivity. }
  split; [apply C |]. split; [apply F |].
  intros name rest inf Hc. unfold Job.check. rewrite Hc. cbn [Job.objectives].
  assert (T : forall q, type (snd (fst (attemptObjective Items h q o args)))
                        = Objectives.ORDER).
  { intro q. destruct (attemptObjective_objective Items h q o args) as [_ B].
    rewrite B. unfold checkObjective.
    destruct (dispatch_keeps q
                (progressInit (ensurePosition q o) (gates h q (ensurePosition q o)))
                args (gates h q (ensurePosition q o))) as (_ & _ & K & _).
    rewrite K, checkObjective_type_arg. exact Ht. }
  specialize (T (Player.with_checking p true)).
  specialize (F (Player.with_checking p true)).
  destruct (attemptObjective Items h (Player.with_checking p true) o args)
    as [[v o'] p'].
  cbn [fst snd] in T, F. rewrite F.
  cbn [negb Job.name Job.infinite].
  eexists. exists (Player.with_checking p' false).
  split; [reflexivity |]. cbn. rewrite T. repeat split.
Qed.

Lemma order_never_completes_witness :
  fst (fst (checkObjective heap0 player0
              (newObjective (Some "word") Objectives.ORDER Modifiers.MIN) []))
  = JsUndefined
  /\ fst (fst (attemptObjective sampleItems heap0 player0
                 (newObjective (Some "word") Objectives.ORDER Modifiers.MIN) []))
     = false.
Proof.
  destruct (order_never_completes sampleItems heap0 player0
              (newObjective (Some "word") Objectives.ORDER Modifiers.MIN) []
              eq_refl) as (C & A & _).
  split; [| exact A].
  rewrite C. rewrite gates_player0; reflexivity.
Defined.

(** X10.  A go-to-point or player objective is complete on the first check
    whose range and vehicle checks pass, and on no other: its check returns
    what those checks say, never moves the progress counter and never
    triggers an animation or a sound. *)
Theorem point_completes_when_gates_pass (h : Heap) (p : Player.t)
  (o : Objective) (args : list string) :
  type o = Objectives.POINT \/ type o = Objectives.PLAYER ->
  fst (fst (checkObjective h p o args)) = JsBool (gates h p (ensurePosition p o))
  /\ progress (snd (fst (checkObjective h p o args))) = progress o
  /\ snd (checkObjective h p o args) = p.
Proof.
  intro Ht. unfold checkObjective.
  rewrite dispatch_eq, checkObjective_type_arg.
  destruct (ensurePosition_flags p o) as (_ & _ & Ep & _).
  destruct Ht as [Ht | Ht]; rewrite Ht; simpl (_ =? _);
    destruct (gates h p (ensurePosition p o)); cbn [fst snd];
    rewrite progressInit_progress, Ep; repeat split.
Qed.

Lemma point_completes_when_gates_pass_witness :
  fst (fst (checkObjective heap0 player0 goToPoint []))
  = JsBool (gates heap0 player0 (ensurePosition player0 goToPoint)).
Proof.
  apply (point_completes_when_gates_pass heap0 player0 goToPoint []).
  left. reflexivity.
Defined.

(** X11.  An objective whose kind code is above 5, the infinite marker
    among them, is never range-checked: its check passes or fails on the
    vehicle flags alone, wherever the player and the objective are. *)
Theorem marker_kind_skips_range_check (h : Heap) (p : Player.t)
  (o : Objective) (args : list string) :
  5 < type o ->
  fst (fst (checkObjective h p o args))
  = JsBool (inVehicleGate p o (onFootGate p o true)).
Proof.
  intro Ht. unfold checkObjective.
  rewrite dispatch_eq, checkObjective_type_arg.
  assert (G : gates h p (ensurePosition p o)
              = inVehicleGate p o (onFootGate p o true)).
  { destruct (ensurePosition_flags p o) as (Ef & Et & _).
    unfold gates, rangeGate, onFootGate, inVehicleGate. rewrite Et, Ef.
    assert (L : (type o <=? 5) = false) by (apply Z.leb_gt; exact Ht).
    rewrite L. reflexivity. }
  rewrite G.
  assert (N1 : (type o =? Objectives.CAPTURE) = false)
    by (apply Z.eqb_neq; unfold Objectives.CAPTURE; lia).
  assert (N2 : (type o =? Objectives.HOLD) = false)
    by (apply Z.eqb_neq; unfold Objectives.HOLD; lia).
  assert (N3 : (type o =? Objectives.MASH) = false)
    by (apply Z.eqb_neq; unfold Objectives.MASH; lia).
  assert (N5 : (type o =? Objectives.ORDER) = false)
    by (apply Z.eqb_neq; unfold Objectives.ORDER; lia).
  rewrite N1, N2, N3, N5.
  destruct (inVehicleGate p o (onFootGate p o true)); reflexivity.
Qed.

(** The marker of the demo jobs, [new Objective(6, 1)], checked by a player
    on foot three units away from where it was first checked, with a range
    of 2. *)
Lemma marker_kind_skips_range_check_witness :
  fst (fst (checkObjective heap1 (Player.mk 1%nat None false [])
              (setRange (with_pos infiniteMarker (Some 0%nat)) 2) []))
  = JsBool true.
Proof.
  rewrite (marker_kind_skips_range_check heap1 (Player.mk 1%nat None false [])
             (setRange (with_pos infiniteMarker (Some 0%nat)) 2) []).
  - reflexivity.
  - simpl. unfold Objectives.INFINITE. lia.
Defined.

(** ** Counting attempts in general *)

Lemma gates_with_progress (h : Heap) (p : Player.t) (o : Objective) (n : Z) :
  gates h p (with_progress o n) = gates h p o.
Proof. reflexivity. Qed.

(** X12.  On a capture, hold or mash objective with a set position, the
    k-th attempt in a row whose range and vehicle checks pass leaves the
    progress counter at its starting value plus k, and returns true exactly
    when that value has reached [maxProgress]; the counter is never reset,
    so further passing attempts keep returning true and keep counting past
    [maxProgress]. *)
Theorem attempts_count_up (Items : Catalog) (h : Heap) (o : Objective)
  (r : Ref) (players : list Player.t) :
  counting o ->
  pos o = Some r ->
  (forall p, In p players -> gates h p o = true) ->
  attemptEach Items h o players
  = map (fun k => (maxProgress o <=? progress o + Z.of_nat k,
                   progress o + Z.of_nat k))
      (seq 1 (length players)).
Proof.
  revert o. induction players as [| p players IH]; intros o Hk Hpos Hg.
  - reflexivity.
  - rewrite (attemptEach_cons_positioned Items h o r p players Hpos Hk)
      by (apply Hg; left; reflexivity).
    rewrite (IH (with_progress o (progress o + 1)));
      [| exact Hk | exact Hpos
       | intros q Hq; rewrite gates_with_progress; apply Hg; right; exact Hq].
    cbn [length seq map progress maxProgress with_progress]. f_equal.
    + f_equal. rewrite Z.ltb_antisym, negb_involutive. reflexivity.
    + rewrite <- (seq_shift (length players) 1), map_map. apply map_ext. intro k.
      replace (progress o + 1 + Z.of_nat k) with (progress o + Z.of_nat (S k)) by lia.
      reflexivity.
Qed.

(** Eight attempts on [new Objective(1, 0)] positioned where the player
    stands: false five times, then true from the sixth on, the counter
    going on to 7. *)
Lemma attempts_count_up_witness :
  attemptEach sampleItems heap0 (with_pos captureZone (Some 0%nat))
    (repeat player0 8)
  = [(false, 0); (false, 1); (false, 2); (false, 3); (false, 4);
     (true, 5); (true, 6); (true, 7)].
Proof.
  rewrite (attempts_count_up sampleItems heap0 (with_pos captureZone (Some 0%nat))
             0%nat (repeat player0 8)).
  - reflexivity.
  - left. reflexivity.
  - reflexivity.
  - intros p Hp. apply repeat_spec in Hp. subst p.
    apply gates_player0; reflexivity.
Defined.

(** ** Animation and sound *)

Lemma presentation_ext (p : Player.t) (o o' : Objective) :
  anim o' = anim o ->
  everySound o' = everySound o ->
  playEverySound (playAnimation p o') o' = playEverySound (playAnimation p o) o.
Proof.
  intros Ha He. unfold playEverySound, playAnimation. rewrite Ha, He. reflexivity.
Qed.

Lemma prepared_fields (p : Player.t) (o : Objective) (valid : bool) :
  let o' := progressInit (ensurePosition p o) valid in
  anim o' = anim o /\ everySound o' = everySound o
  /\ progress o' = progress o /\ maxProgress o' = maxProgress o.
Proof.
  cbv zeta. rewrite progressInit_progress.
  destruct (progressInit_keeps (ensurePosition p o) valid) as (_ & _ & _ & _ & Km & _).
  rewrite Km. unfold progressInit, ensurePosition.
  destruct (isFlagged _ _ && valid); destruct (pos o);
    try destruct (negb (truthy _)); repeat split.
Qed.

Lemma strategy_player (p : Player.t) (o : Objective) :
  let tick := if progress o + 1 <? maxProgress o
              then playEverySound (playAnimation p o) o else p in
  snd (capture p o) = tick /\ snd (hold p o) = tick /\ snd (mash p o) = tick.
Proof.
  cbv zeta. unfold capture, hold, mash.
  cbn [progress maxProgress with_progress].
  destruct (progress o + 1 <? maxProgress o); cbn [snd]; repeat split;
    apply presentation_ext; reflexivity.
Qed.

Lemma presentation_trace (p : Player.t) (o : Objective) :
  Player.trace (playEverySound (playAnimation p o) o)
  = (Player.trace p
     ++ match anim o with
        | Some a => [PlayAnimation (Anim.dict a) (Anim.name a) (Anim.duration a) None]
        | None => []
        end
     ++ match everySound o with
        | Some s => [PlayAudio s]
        | None => []
        end)%list.
Proof.
  unfold playEverySound, playAnimation, Player.playAudio, Player.playAnimation,
    Player.record.
  destruct (anim o), (everySound o); cbn [Player.trace];
    rewrite <- ?app_assoc, ?app_nil_r; reflexivity.
Qed.

(** The player as a check leaves it. *)
Lemma checkObjective_player (h : Heap) (p : Player.t) (o : Objective)
  (args : list string) :
  snd (checkObjective h p o args)
  = if ((type o =? Objectives.CAPTURE) || (type o =? Objectives.HOLD)
        || (type o =? Objectives.MASH))
       && gates h p (ensurePosition p o)
       && (progress o + 1 <? maxProgress o)
    then playEverySound (playAnimation p o) o
    else p.
Proof.
  unfold checkObjective. rewrite dispatch_eq, checkObjective_type_arg.
  destruct (gates h p (ensurePosition p o)) eqn:G.
  - destruct (prepared_fields p o true) as (Fa & Fe & Fp & Fm).
    destruct (strategy_player p (progressInit (ensurePosition p o) true))
      as (Sc & Sh & Sm).
    rewrite Fp, Fm in Sc, Sh, Sm.
    rewrite (presentation_ext p o _ Fa Fe) in Sc, Sh, Sm.
    rewrite andb_true_r.
    destruct (type o =? Objectives.CAPTURE); [rewrite checked_snd; exact Sc |].
    destruct (type o =? Objectives.HOLD); [rewrite checked_snd; exact Sh |].
    destruct (type o =? Objectives.MASH); [rewrite checked_snd; exact Sm |].
    destruct (type o =? Objectives.ORDER); reflexivity.
  - rewrite andb_false_r. reflexivity.
Qed.

(** X13.  A check triggers the animation and the per-tick sound in one
    case only: a capture, hold or mash objective whose range and vehicle
    checks pass and whose counter, once incremented, is still below
    [maxProgress].  What is triggered is the animation, if one is set,
    without its flags ([anim.flag] is not a property of the record
    [setAnimation] builds), then [everySound], if set; [finishSound] is
    never played.  In every other case the player is left as it was. *)
Theorem presentation_only_on_progress (h : Heap) (p : Player.t) (o : Objective)
  (args : list string) :
  let tick :=
    ((type o =? Objectives.CAPTURE) || (type o =? Objectives.HOLD)
     || (type o =? Objectives.MASH))
    && gates h p (ensurePosition p o)
    && (progress o + 1 <? maxProgress o) in
  let p' := snd (checkObjective h p o args) in
  (tick = false -> p' = p)
  /\ (tick = true ->
      Player.trace p'
      = (Player.trace p
         ++ match anim o with
            | Some a =>
                [PlayAnimation (Anim.dict a) (Anim.name a) (Anim.duration a) None]
            | None => []
            end
         ++ match everySound o with
            | Some s => [PlayAudio s]
            | None => []
            end)%list
      /\ Player.pos p' = Player.pos p
      /\ Player.vehicle p' = Player.vehicle p
      /\ Player.checking p' = Player.checking p).
Proof.
  cbv zeta. rewrite checkObjective_player. split; intro H; rewrite H.
  - reflexivity.
  - split; [apply presentation_trace |].
    unfold playEverySound, playAnimation.
    destruct (anim o), (everySound o); repeat split.
Qed.

(** X14.  An attempt that returns false grants nothing: apart from the
    animation and the sound of a progress tick, the only thing the player
    gets is one "job:Progress" publication carrying the current progress;
    no reward, no message, no "job:Objective". *)
Theorem failed_attempt_grants_nothing (Items : Catalog) (h : Heap)
  (p : Player.t) (o : Objective) (args : list string) :
  fst (fst (attemptObjective Items h p o args)) = false ->
  exists ext : list Event,
    Player.trace (snd (attemptObjective Items h p o args))
    = (Player.trace p ++ ext
       ++ [EmitMeta "job:Progress"
             (MNumber (progress (snd (fst (attemptObjective Items h p o args)))))])%list
    /\ Forall (fun e => match e with
                        | PlayAnimation _ _ _ None => True
                        | PlayAudio _ => True
                        | _ => False
                        end) ext.
Proof.
  intro H. pose proof (checkObjective_player h p o args) as P.
  unfold attemptObjective in *.
  destruct (checkObjective h p o args) as [[v o'] p'].
  cbn [snd] in P. destruct (toBoolean v); cbn [negb fst snd] in *; [discriminate |].
  unfold Player.emitMeta, Player.record. cbn [Player.trace].
  destruct (((type o =? Objectives.CAPTURE) || (type o =? Objectives.HOLD)
             || (type o =? Objectives.MASH))
            && gates h p (ensurePosition p o)
            && (progress o + 1 <? maxProgress o)).
  - subst p'. rewrite presentation_trace.
    exists (match anim o with
            | Some a =>
                [PlayAnimation (Anim.dict a) (Anim.name a) (Anim.duration a) None]
            | None => []
            end
            ++ match everySound o with
               | Some s => [PlayAudio s]
               | None => []
               end)%list.
    split; [rewrite <- !app_assoc; reflexivity |].
    destruct (anim o), (everySound o); repeat constructor.
  - subst p'. exists []. split; [reflexivity | constructor].
Qed.

Lemma failed_attempt_grants_nothing_witness :
  exists ext : list Event,
    Player.trace (snd (attemptObjective sampleItems heap0 player0
                         (setRewards (setEverySound captureZone "tick")
                            [Reward.mk "xp" "agility" 10]) []))
    = (Player.trace player0 ++ ext
       ++ [EmitMeta "job:Progress"
             (MNumber
                (progress
                   (snd (fst (attemptObjective sampleItems heap0 player0
                                (setRewards (setEverySound captureZone "tick")
                                   [Reward.mk "xp" "agility" 10]) [])))))])%list
    /\ Forall (fun e => match e with
                        | PlayAnimation _ _ _ None => True
                        | PlayAudio _ => True
                        | _ => False
                        end) ext.
Proof.
  apply (failed_attempt_grants_nothing sampleItems heap0 player0
           (setRewards (setEverySound captureZone "tick")
              [Reward.mk "xp" "agility" 10]) []).
  destruct (attemptObjective_objective sampleItems heap0 player0
              (setRewards (setEverySound captureZone "tick")
                 [Reward.mk "xp" "agility" 10]) []) as [A _].
  rewrite A.
  destruct (checkObjective_counting heap0 player0
              (setRewards (setEverySound captureZone "tick")
                 [Reward.mk "xp" "agility" 10]) [])
    as [C _].
  - left. reflexivity.
  - apply gates_player0; reflexivity.
  - rewrite C. reflexivity.
Defined.

(** ** Rewards in general *)

Lemma addEach_trace (n : nat) (item : ItemDef.t) (p : Player.t) :
  Player.trace (addEach n item p)
  = (Player.trace p
     ++ concat (repeat [AddItem item 1 false; Send (addedMessage item)] n))%list.
Proof.
  revert p. induction n as [| n IH]; intro p; simpl.
  - rewrite app_nil_r. reflexivity.
  - rewrite IH. unfold Player.send, Player.addItem, Player.record.
    cbn [Player.trace]. rewrite <- !app_assoc. reflexivity.
Qed.

Lemma addEach_nothing (item : ItemDef.t) (p : Player.t) (q : Z) :
  q <= 0 -> addEach (Z.to_nat q) item p = p.
Proof.
  intro H. replace (Z.to_nat q) with O by lia. reflexivity.
Qed.

(** X15.  A successful attempt on an objective with an item reward whose
    key is not in the catalog, a reward of an unknown type and an xp
    reward: the unknown item is reported on the console and skipped, the
    reward of unknown type is skipped silently, the xp reward is still
    granted, and the attempt returns true all the same. *)
Theorem misconfigured_rewards_are_skipped (Items : Catalog) (h : Heap)
  (p : Player.t) (o : Objective) (args : list string)
  (key kind what skill : string) (q m n : Z) :
  fst (fst (checkObjective h p o args)) = JsBool true ->
  Items key = None ->
  (kind =? "xp")%string = false ->
  (kind =? "item")%string = false ->
  rewards o = [Reward.mk "item" key q; Reward.mk kind what m;
               Reward.mk "xp" skill n] ->
  fst (fst (attemptObjective Items h p o args)) = true
  /\ Player.trace (snd (attemptObjective Items h p o args))
     = (Player.trace (snd (checkObjective h p o args))
        ++ [ConsoleLog (key ++ " was not found for a reward.");
            AddXP skill n;
            EmitMeta "job:Objective" MUndefined])%list.
Proof.
  intros Hv Hi Hx Ht Hr.
  pose proof (checkObjective_rewards h p o args) as Hrw.
  unfold attemptObjective.
  destruct (checkObjective h p o args) as [[v o'] p'].
  cbn [fst snd] in Hv, Hrw |- *. subst v. rewrite Hr in Hrw. rewrite Hrw.
  cbn [toBoolean negb length Nat.leb fold_left fst snd].
  rewrite (issueReward_unknown_item Items p' key q Hi).
  split; [reflexivity |].
  unfold issueReward at 2. cbn [Reward.type Reward.prop Reward.quantity].
  rewrite Hx, Ht.
  unfold issueReward. cbn [Reward.type Reward.prop Reward.quantity].
  change ("xp" =? "xp")%string with true. change ("xp" =? "item")%string with false.
  cbn iota. unfold addXP, consoleLog, Player.emitMeta, Player.record.
  cbn [Player.trace]. rewrite <- !app_assoc. reflexivity.
Qed.

Lemma misconfigured_rewards_are_skipped_witness :
  Player.trace
    (snd (attemptObjective sampleItems heap0 player0
            (setRewards goToPoint
               [Reward.mk "item" "Jetpack" 1; Reward.mk "cash" "wallet" 50;
                Reward.mk "xp" "agility" 10]) []))
  = [ConsoleLog "Jetpack was not found for a reward."; AddXP "agility" 10;
     EmitMeta "job:Objective" MUndefined].
Proof.
  pose proof (misconfigured_rewards_are_skipped sampleItems heap0 player0
                (setRewards goToPoint
                   [Reward.mk "item" "Jetpack" 1; Reward.mk "cash" "wallet" 50;
                    Reward.mk "xp" "agility" 10]) []
                "Jetpack" "cash" "wallet" "agility" 1 50 10) as T.
  rewrite checkObjective_point_player0 in T by reflexivity.
  apply T; reflexivity.
Defined.

(** X16.  An item reward of any quantity [q] whose item is in the
    catalog.  Stackable: one [addItem] call with quantity [q] and one
    message, also when [q] is zero or negative.  Non-stackable: [q] calls
    with quantity 1, each followed by a message, and nothing at all when
    [q] is zero or negative. *)
Theorem item_reward_quantity (Items : Catalog) (p : Player.t) (key : string)
  (q : Z) (item : ItemDef.t) :
  Items key = Some item ->
  (ItemDef.stackable item = true ->
   Player.trace (issueReward Items p (Reward.mk "item" key q))
   = (Player.trace p ++ [AddItem item q false; Send (addedMessage item)])%list)
  /\ (ItemDef.stackable item = false ->
      Player.trace (issueReward Items p (Reward.mk "item" key q))
      = (Player.trace p
         ++ concat (repeat [AddItem item 1 false; Send (addedMessage item)]
                      (Z.to_nat q)))%list)
  /\ (ItemDef.stackable item = false -> q <= 0 ->
      issueReward Items p (Reward.mk "item" key q) = p).
Proof.
  intro Hi. rewrite (issueReward_item Items p key q item Hi).
  split; [| split]; intro Hs; rewrite Hs.
  - unfold Player.send, Player.addItem, Player.record. cbn [Player.trace].
    rewrite <- app_assoc. reflexivity.
  - apply addEach_trace.
  - apply addEach_nothing.
Qed.

Lemma item_reward_quantity_witness :
  Player.trace (issueReward sampleItems player0 (Reward.mk "item" "Bandage" 0))
  = [AddItem bandage 0 false; Send "Bandage was added to your inventory."]
  /\ issueReward sampleItems player0 (Reward.mk "item" "TrackSuit" (-2)) = player0.
Proof.
  split.
  - apply (item_reward_quantity sampleItems player0 "Bandage" 0 bandage);
      reflexivity.
  - apply (item_reward_quantity sampleItems player0 "TrackSuit" (-2) trackSuit);
      [reflexivity | reflexivity | lia].
Defined.

(** ** What a check never reads *)

Lemma ensurePosition_same (p : Player.t) (o o' : Objective) :
  sameReadFields o o' ->
  sameReadFields (ensurePosition p o) (ensurePosition p o').
Proof.
  intro H. pose proof H as (Ht & Hf & Hr & Hp & Hpr & Hm & Ha & He).
  unfold ensurePosition. rewrite Hp. destruct (pos o); [exact H |].
  unfold sameReadFields. cbn. repeat split; assumption.
Qed.

Lemma gates_same (h : Heap) (p : Player.t) (o o' : Objective) :
  sameReadFields o o' -> gates h p o' = gates h p o.
Proof.
  intros (Ht & Hf & Hr & Hp & Hpr & Hm & Ha & He).
  unfold gates, rangeGate, onFootGate, inVehicleGate, isInRange.
  rewrite Ht, Hf, Hr, Hp. reflexivity.
Qed.

Lemma progressInit_same (o o' : Objective) (valid : bool) :
  sameReadFields o o' ->
  sameReadFields (progressInit o valid) (progressInit o' valid).
Proof.
  intro H. pose proof H as (Ht & Hf & Hr & Hp & Hpr & Hm & Ha & He).
  unfold progressInit. rewrite Hf, Hpr.
  destruct (isFlagged (flags o) Modifiers.PROGRESS && valid); [| exact H].
  destruct (negb (truthy (progress o))); [| exact H].
  unfold sameReadFields. cbn. repeat split; assumption.
Qed.

Lemma strategy_same (p : Player.t) (o o' : Objective) :
  sameReadFields o o' ->
  (fst (fst (capture p o')) = fst (fst (capture p o))
   /\ snd (capture p o') = snd (capture p o)
   /\ sameReadFields (snd (fst (capture p o))) (snd (fst (capture p o'))))
  /\ (fst (fst (hold p o')) = fst (fst (hold p o))
      /\ snd (hold p o') = snd (hold p o)
      /\ sameReadFields (snd (fst (hold p o))) (snd (fst (hold p o'))))
  /\ (fst (fst (mash p o')) = fst (fst (mash p o))
      /\ snd (mash p o') = snd (mash p o)
      /\ sameReadFields (snd (fst (mash p o))) (snd (fst (mash p o')))).
Proof.
  intro H. pose proof H as (Ht & Hf & Hr & Hp & Hpr & Hm & Ha & He).
  assert (S : sameReadFields (with_progress o (progress o + 1))
                (with_progress o' (progress o' + 1))).
  { unfold sameReadFields. cbn. rewrite Hpr. repeat split; assumption. }
  unfold capture, hold, mash. cbn [progress maxProgress with_progress].
  rewrite Hpr, Hm.
  destruct (progress o + 1 <? maxProgress o); cbn [fst snd];
    repeat split; try apply S; try reflexivity;
    rewrite <- Hpr;
    apply (presentation_ext p (with_progress o (progress o + 1))
             (with_progress o' (progress o' + 1))); cbn; assumption.
Qed.

Lemma dispatch_same (p : Player.t) (o o' : Objective) (args : list string)
  (valid : bool) :
  sameReadFields o o' ->
  fst (fst (dispatch p o' args valid)) = fst (fst (dispatch p o args valid))
  /\ snd (dispatch p o' args valid) = snd (dispatch p o args valid)
  /\ sameReadFields (snd (fst (dispatch p o args valid)))
       (snd (fst (dispatch p o' args valid))).
Proof.
  intro H. pose proof H as (Ht & _).
  destruct (strategy_same p o o' H) as (Sc & Sh & Sm).
  rewrite !dispatch_eq, Ht.
  destruct valid; [| split; [reflexivity | split; [reflexivity | exact H]]].
  destruct (type o =? Objectives.CAPTURE);
    [rewrite !checked_fst, !checked_snd, !checked_obj;
     destruct Sc as (S1 & S2 & S3); rewrite S1; split; [reflexivity | split; assumption] |].
  destruct (type o =? Objectives.HOLD);
    [rewrite !checked_fst, !checked_snd, !checked_obj;
     destruct Sh as (S1 & S2 & S3); rewrite S1; split; [reflexivity | split; assumption] |].
  destruct (type o =? Objectives.MASH);
    [rewrite !checked_fst, !checked_snd, !checked_obj;
     destruct Sm as (S1 & S2 & S3); rewrite S1; split; [reflexivity | split; assumption] |].
  destruct (type o =? Objectives.ORDER);
    (split; [reflexivity | split; [reflexivity | exact H]]).
Qed.

(** X17.  A check reads the kind, flags, range, position, progress,
    [maxProgress], animation and per-tick sound of an objective and nothing
    else: two objectives that agree on these get the same answer, the same
    effect on the player and the same new progress.  In particular item
    restrictions are stored but never enforced, whatever the flags, and
    neither the target nor the finish sound plays any part. *)
Theorem check_reads_only (h : Heap) (p : Player.t) (o o' : Objective)
  (args : list string) :
  sameReadFields o o' ->
  fst (fst (checkObjective h p o' args)) = fst (fst (checkObjective h p o args))
  /\ snd (checkObjective h p o' args) = snd (checkObjective h p o args)
  /\ sameReadFields (snd (fst (checkObjective h p o args)))
       (snd (fst (checkObjective h p o' args))).
Proof.
  intro H. unfold checkObjective.
  pose proof (ensurePosition_same p o o' H) as He.
  rewrite (gates_same h p _ _ He).
  apply dispatch_same. apply progressInit_same. exact He.
Qed.

Lemma check_reads_only_witness :
  fst (fst (checkObjective heap0 player0
              (setItemRestrictions
                 (newObjective None Objectives.POINT Modifiers.ITEM_RESTRICTIONS)
                 [ItemRestriction.mk "Pickaxe" true 1]) []))
  = fst (fst (checkObjective heap0 player0
                (newObjective None Objectives.POINT Modifiers.ITEM_RESTRICTIONS) [])).
Proof.
  apply (check_reads_only heap0 player0
           (newObjective None Objectives.POINT Modifiers.ITEM_RESTRICTIONS)
           (setItemRestrictions
              (newObjective None Objectives.POINT Modifiers.ITEM_RESTRICTIONS)
              [ItemRestriction.mk "Pickaxe" true 1]) []).
  unfold sameReadFields. repeat split.
Defined.

(** ** Jobs that loop *)

(** [next] onto a marker, looping or not. *)
Lemma next_marker_any_job (name : string) (inf : bool) (last m : Objective)
  (rest : list Objective) (player : Player.t) :
  type m = Objectives.INFINITE ->
  fst (stateOf (Job.next (Job.mk name (last :: m :: rest) inf) player))
  = Job.mk name (if inf then rest ++ [last] else rest)%list true.
Proof.
  intro H. unfold Job.next.
  cbn [Job.objectives Job.infinite Job.name hd_error tl].
  destruct inf; cbn [app hd_error tl]; rewrite H, Z.eqb_refl;
    cbn [app hd_error tl];
    match goal with
    | |- context [stringify ?q] => destruct (stringify q)
    end; reflexivity.
Qed.

Lemma nextTimes_S (n : nat) (j : Job.t) (p : Player.t) :
  nextTimes (S n) j p
  = nextTimes n (fst (stateOf (Job.next j p))) (snd (stateOf (Job.next j p))).
Proof.
  cbn [nextTimes]. destruct (stateOf (Job.next j p)) as [j' p']. reflexivity.
Qed.

Lemma nextTimes_rotate (name : string) (q1 q2 : list Objective) (p : Player.t) :
  Forall (fun o => type o <> Objectives.INFINITE) (q1 ++ q2) ->
  (2 <= length (q1 ++ q2))%nat ->
  fst (nextTimes (length q1) (Job.mk name (q1 ++ q2) true) p)
  = Job.mk name (q2 ++ q1) true.
Proof.
  revert q2 p. induction q1 as [| a q1 IH]; intros q2 p Hall Hlen.
  - rewrite app_nil_r. reflexivity.
  - cbn [length app]. rewrite nextTimes_S.
    destruct (q1 ++ q2)%list as [| b t] eqn:E.
    { cbn [app length] in Hlen. rewrite E in Hlen. simpl in Hlen. lia. }
    cbn [app] in Hall. rewrite E in Hall.
    assert (Hb : type b <> Objectives.INFINITE).
    { inversion Hall as [| ? ? _ Hrest]. inversion Hrest. assumption. }
    rewrite (next_plain_job name true a b t p Hb).
    rewrite <- E, <- app_assoc.
    rewrite IH.
    + rewrite <- app_assoc. reflexivity.
    + rewrite app_assoc, E. apply Forall_app. split.
      * inversion Hall. assumption.
      * constructor; [| constructor]. inversion Hall. assumption.
    + rewrite app_assoc, E, length_app. simpl. lia.
Qed.

(** X18.  A looping job of two or more objectives, none of them a marker:
    each [next] moves the head to the tail, and after as many calls as
    there are objectives the queue is back in its original order, the job
    still looping.  This is the job as the calls leave it, also when the
    publication of a new head throws. *)
Theorem looping_job_rotates (name : string) (q : list Objective) (p : Player.t) :
  Forall (fun o => type o <> Objectives.INFINITE) q ->
  (2 <= length q)%nat ->
  (forall a rest, q = a :: rest ->
                  fst (stateOf (Job.next (Job.mk name q true) p))
                  = Job.mk name (rest ++ [a]) true)
  /\ fst (nextTimes (length q) (Job.mk name q true) p) = Job.mk name q true.
Proof.
  intros Hall Hlen. split.
  - intros a rest ->. destruct rest as [| b t]; [simpl in Hlen; lia |].
    rewrite next_plain_job; [reflexivity |].
    inversion Hall as [| ? ? _ Hrest]. inversion Hrest. assumption.
  - pose proof (nextTimes_rotate name q [] p) as R.
    rewrite !app_nil_r in R. apply R; assumption.
Qed.

Lemma looping_job_rotates_witness :
  fst (nextTimes 3 (Job.mk "lap" [stepA; stepB; stepC] true) player0)
  = Job.mk "lap" [stepA; stepB; stepC] true.
Proof.
  apply (looping_job_rotates "lap" [stepA; stepB; stepC] player0).
  - repeat constructor; discriminate.
  - simpl. lia.
Defined.

Lemma next_invariants_name (j : Job.t) (p : Player.t) :
  Job.name (fst (stateOf (Job.next j p))) = Job.name j.
Proof.
  unfold Job.next.
  destruct (hd_error (tl (Job.objectives j))).
  - destruct (match hd_error _ with Some _ => _ | None => _ end) as [inf objs].
    destruct (stringify (hd_error objs)); reflexivity.
  - reflexivity.
Qed.

(** X19.  [next] never renames a job, never clears the loop flag once it
    is set and never makes the queue longer; while the job is not looping
    and has an objective left, it makes the queue strictly shorter.  This
    is the job as [next] leaves it, whether it returns or throws. *)
Theorem next_invariants (j : Job.t) (p : Player.t) :
  let j' := fst (stateOf (Job.next j p)) in
  Job.name j' = Job.name j
  /\ (Job.infinite j = true -> Job.infinite j' = true)
  /\ (length (Job.objectives j') <= length (Job.objectives j))%nat
  /\ (Job.infinite j = false -> Job.objectives j <> [] ->
      (length (Job.objectives j') < length (Job.objectives j))%nat).
Proof.
  destruct j as [name q inf]. cbv zeta.
  destruct q as [| a [| b t]].
  - cbn. repeat split; intros; try assumption; try contradiction; lia.
  - rewrite next_last. cbn. repeat split; intros; try assumption; lia.
  - destruct (Z.eqb_spec (type b) Objectives.INFINITE) as [Hm | Hm].
    + rewrite (next_marker_any_job name inf a b t p Hm). cbn.
      destruct inf; repeat split; intros; try reflexivity; try discriminate;
        simpl; rewrite ?length_app; simpl; lia.
    + rewrite (next_plain_job name inf a b t p Hm). cbn.
      destruct inf; repeat split; intros; try reflexivity; try discriminate;
        simpl; rewrite ?length_app; simpl; lia.
Qed.

(** ** The player's position, vehicle and flag *)

Lemma sameButTrace_refl (p : Player.t) : sameButTrace p p.
Proof. repeat split. Qed.

Lemma sameButTrace_trans (p q r : Player.t) :
  sameButTrace p q -> sameButTrace q r -> sameButTrace p r.
Proof.
  unfold sameButTrace. intros (A & B & C) (D & E & F).
  repeat split; congruence.
Qed.

Lemma sameButTrace_record (p : Player.t) (e : Event) :
  sameButTrace p (Player.record p e).
Proof. repeat split. Qed.

Lemma sameButTrace_presentation (p : Player.t) (o : Objective) :
  sameButTrace p (playEverySound (playAnimation p o) o).
Proof.
  unfold playEverySound, playAnimation. destruct (anim o), (everySound o);
    repeat split.
Qed.

Lemma sameButTrace_addEach (n : nat) (item : ItemDef.t) (p : Player.t) :
  sameButTrace p (addEach n item p).
Proof.
  revert p. induction n as [| n IH]; intro p; simpl.
  - apply sameButTrace_refl.
  - eapply sameButTrace_trans; [| apply IH]. repeat split.
Qed.

Lemma sameButTrace_issueReward (Items : Catalog) (p : Player.t) (r : Reward.t) :
  sameButTrace p (issueReward Items p r).
Proof.
  unfold issueReward.
  assert (H : sameButTrace p
                (if (Reward.type r =? "xp")%string
                 then addXP p (Reward.prop r) (Reward.quantity r) else p)).
  { destruct (Reward.type r =? "xp")%string; repeat split. }
  revert H.
  generalize (if (Reward.type r =? "xp")%string
              then addXP p (Reward.prop r) (Reward.quantity r) else p).
  intros p' H.
  destruct (Reward.type r =? "item")%string; [| exact H].
  eapply sameButTrace_trans; [exact H |].
  destruct (Items (Reward.prop r)) as [item |]; [| repeat split].
  destruct (ItemDef.stackable item); [repeat split |].
  apply sameButTrace_addEach.
Qed.

Lemma sameButTrace_issueRewards (Items : Catalog) (rs : list Reward.t)
  (p : Player.t) :
  sameButTrace p (fold_left (issueReward Items) rs p).
Proof.
  revert p. induction rs as [| r rs IH]; intro p; simpl.
  - apply sameButTrace_refl.
  - eapply sameButTrace_trans; [apply sameButTrace_issueReward | apply IH].
Qed.

Lemma sameButTrace_attemptObjective (Items : Catalog) (h : Heap) (p : Player.t)
  (o : Objective) (args : list string) :
  sameButTrace p (snd (attemptObjective Items h p o args)).
Proof.
  pose proof (checkObjective_player h p o args) as P.
  unfold attemptObjective.
  destruct (checkObjective h p o args) as [[v o'] p']. cbn [snd] in P.
  assert (S : sameButTrace p p').
  { rewrite P. destruct (_ && _ && _).
    - apply sameButTrace_presentation.
    - apply sameButTrace_refl. }
  destruct (toBoolean v); cbn [negb snd].
  - eapply sameButTrace_trans; [exact S |].
    eapply sameButTrace_trans; [| apply sameButTrace_record].
    destruct (1 <=? length (rewards o'))%nat.
    + apply sameButTrace_issueRewards.
    + apply sameButTrace_refl.
  - eapply sameButTrace_trans; [exact S | apply sameButTrace_record].
Qed.

Lemma sameButTrace_next (j : Job.t) (p : Player.t) :
  sameButTrace p (snd (stateOf (Job.next j p))).
Proof.
  unfold Job.next.
  destruct (hd_error (tl (Job.objectives j))).
  - destruct (match hd_error _ with Some _ => _ | None => _ end) as [inf objs].
    destruct (stringify (hd_error objs)); repeat split.
  - repeat split.
Qed.

(** ** How a check ends *)



(** X21.  A [check] that returns hands the player back with the
    [checking] flag, the position and the vehicle it came with, and the job
    under its name; only the player's trace and the job's queue and loop
    flag can differ. *)
Theorem check_restores_player (Items : Catalog) (h : Heap) (j j' : Job.t)
  (p p' : Player.t) (args : list string) :
  Job.check Items h j p args = Returned (j', p') ->
  sameButTrace p p' /\ Job.name j' = Job.name j.
Proof.
  unfold Job.check. destruct (Player.checking p) eqn:Hc.
  - intro H. injection H as <- <-. split; [apply sameButTrace_refl | reflexivity].
  - destruct (Job.objectives j) as [| o rest]; [discriminate |].
    pose proof (sameButTrace_attemptObjective Items h
                  (Player.with_checking p true) o args) as (A1 & A2 & A3).
    destruct (attemptObjective Items h (Player.with_checking p true) o args)
      as [[v o'] p1].
    cbn [snd Player.pos Player.vehicle Player.checking Player.with_checking]
      in A1, A2, A3.
    destruct v; cbn [negb]; intro H.
    + pose proof (sameButTrace_next
                    (Job.mk (Job.name j) (o' :: rest) (Job.infinite j))
                    (Player.with_checking p1 false)) as (N1 & N2 & N3).
      pose proof (next_invariants_name
                    (Job.mk (Job.name j) (o' :: rest) (Job.infinite j))
                    (Player.with_checking p1 false)) as N.
      rewrite H in N1, N2, N3, N. cbn [stateOf fst snd] in N1, N2, N3, N.
      cbn [Player.pos Player.vehicle Player.checking Player.with_checking] in *.
      cbn [Job.name] in N. unfold sameButTrace. repeat split; congruence.
    + injection H as <- <-. unfold sameButTrace.
      repeat split; cbn; congruence.
Qed.

Lemma check_singleJob :
  Job.check sampleItems heap0 singleJob player0 []
  = Returned
      (Job.mk "single" [] false,
       Player.mk 0%nat None false
         [EmitMeta "job:Objective" MUndefined;
          EmitMeta "job:ClearObjective" (MBool true);
          EmitMeta "job:Objective" MUndefined;
          Send "Job Complete"]).
Proof.
  unfold Job.check. cbn [Player.checking player0 Job.objectives singleJob
                           Job.add Job.new app].
  rewrite attemptObjective_point;
    [| reflexivity | reflexivity | apply gates_player0; reflexivity].
  reflexivity.
Qed.

Lemma check_restores_player_witness :
  sameButTrace player0
    (Player.mk 0%nat None false
       [EmitMeta "job:Objective" MUndefined;
        EmitMeta "job:ClearObjective" (MBool true);
        EmitMeta "job:Objective" MUndefined;
        Send "Job Complete"])
  /\ Job.name (Job.mk "single" [] false) = Job.name singleJob.
Proof.
  apply (check_restores_player sampleItems heap0 singleJob _ player0 _ []).
  apply check_singleJob.
Defined.

(** ** Jobs that end *)

(** X22.  A queue that ends on a marker: once the objective before it is
    complete, [next] returns with the marker dropped and the queue empty,
    the job counts as looping, "no objective" is published, and no "Job
    Complete" is sent.  The next [check] throws. *)
Theorem trailing_marker_empties_job (Items : Catalog) (h : Heap)
  (name : string) (A M : Objective) (p : Player.t) (args : list string) :
  type M = Objectives.INFINITE ->
  let s := stateOf (Job.next (Job.mk name [A; M] false) p) in
  Job.next (Job.mk name [A; M] false) p = Returned s
  /\ fst s = Job.mk name [] true
  /\ Player.trace (snd s)
     = (Player.trace p
        ++ [EmitMeta "job:ClearObjective" (MBool true);
            EmitMeta "job:Objective" MUndefined])%list
  /\ (Player.checking p = false ->
      Job.check Items h (fst s) (snd s) args
      = ThrewTypeError (fst s, Player.with_checking (snd s) true)).
Proof.
  intros HM s. subst s. rewrite (next_marker name A M [] p HM).
  cbn [stringify hd_error stateOf fst snd].
  split; [reflexivity |]. split; [reflexivity |]. split.
  - cbn. rewrite <- app_assoc. reflexivity.
  - intro Hc. apply check_empty_queue; [exact Hc | reflexivity].
Qed.

Lemma trailing_marker_empties_job_witness :
  fst (stateOf (Job.next (Job.mk "dead end" [stepA; infiniteMarker] false) player0))
  = Job.mk "dead end" [] true.
Proof.
  apply (trailing_marker_empties_job sampleItems heap0 "dead end" stepA
           infiniteMarker player0 []).
  reflexivity.
Defined.

Lemma next_plain_trace (name : string) (inf : bool) (last first : Objective)
  (rest : list Objective) (player : Player.t) :
  type first <> Objectives.INFINITE ->
  Player.trace
    (snd (stateOf (Job.next (Job.mk name (last :: first :: rest) inf) player)))
  = (Player.trace player ++ movedOnTo first)%list.
Proof.
  intro H. rewrite (next_plain name inf last first rest player H). cbv zeta.
  unfold movedOnTo. destruct (circular first); cbn;
    rewrite <- ?app_assoc; reflexivity.
Qed.

Lemma nextTimes_plain (name : string) (q : list Objective) (p : Player.t) :
  q <> [] ->
  Forall (fun o => type o <> Objectives.INFINITE) (tl q) ->
  fst (nextTimes (length q) (Job.mk name q false) p) = Job.mk name [] false
  /\ Player.trace (snd (nextTimes (length q) (Job.mk name q false) p))
     = (Player.trace p
        ++ flat_map movedOnTo (tl q)
        ++ [EmitMeta "job:ClearObjective" (MBool true);
            EmitMeta "job:Objective" MUndefined;
            Send "Job Complete"])%list.
Proof.
  revert p. induction q as [| a q IH]; intros p Hne Hall; [contradiction |].
  destruct q as [| b t].
  - cbn [length]. rewrite nextTimes_S, next_last. cbn. split; [reflexivity |].
    rewrite <- !app_assoc. reflexivity.
  - cbn [tl] in Hall.
    assert (Hb : type b <> Objectives.INFINITE) by (inversion Hall; assumption).
    change (length (a :: b :: t)) with (S (length (b :: t))).
    rewrite nextTimes_S, (next_plain_job name false a b t p Hb).
    destruct (IH (snd (stateOf (Job.next (Job.mk name (a :: b :: t) false) p))))
      as [I1 I2]; [discriminate | inversion Hall; assumption |].
    split; [exact I1 |].
    rewrite I2, (next_plain_trace name false a b t p Hb).
    cbn [tl flat_map]. rewrite <- !app_assoc. reflexivity.
Qed.

(** X23.  A job that is not looping and has no marker behind its head:
    as many [next] calls as it has objectives empty the queue.  On the way
    each remaining objective is announced once, in order, by a "clear
    objective" signal followed by its publication, the publication being
    skipped for an objective whose serialisation throws; the run ends with
    "no objective" and one "Job Complete".  A marker at the very head is
    passed like any other objective and starts no loop. *)
Theorem plain_job_runs_to_completion (name : string) (q : list Objective)
  (p : Player.t) :
  q <> [] ->
  Forall (fun o => type o <> Objectives.INFINITE) (tl q) ->
  let s := nextTimes (length q) (Job.mk name q false) p in
  fst s = Job.mk name [] false
  /\ Player.trace (snd s)
     = (Player.trace p
        ++ flat_map movedOnTo (tl q)
        ++ [EmitMeta "job:ClearObjective" (MBool true);
            EmitMeta "job:Objective" MUndefined;
            Send "Job Complete"])%list.
Proof.
  intros Hne Hall. cbv zeta. apply nextTimes_plain; assumption.
Qed.

(** A marker, an ordinary objective, and an objective that targets the
    player whose job holds it. *)
Lemma plain_job_runs_to_completion_witness :
  Player.trace
    (snd (nextTimes 3
            (Job.mk "plain"
               [infiniteMarker; stepA;
                setTarget stepB (Target.OfPlayer 0%nat true) "player"]
               false)
            player0))
  = [EmitMeta "job:ClearObjective" (MBool true);
     EmitMeta "job:Objective" (MJson stepA);
     EmitMeta "job:ClearObjective" (MBool true);
     EmitMeta "job:ClearObjective" (MBool true);
     EmitMeta "job:Objective" MUndefined;
     Send "Job Complete"].
Proof.
  apply (plain_job_runs_to_completion "plain"
           [infiniteMarker; stepA;
            setTarget stepB (Target.OfPlayer 0%nat true) "player"]
           player0).
  - discriminate.
  - repeat constructor; discriminate.
Defined.

(** ** Building a job *)

Lemma add_all (name : string) (q os : list Objective) (inf : bool) :
  fold_left Job.add os (Job.mk name q inf) = Job.mk name (q ++ os) inf.
Proof.
  revert q. induction os as [| o os IH]; intro q; simpl.
  - rewrite app_nil_r. reflexivity.
  - unfold Job.add at 2. cbn [Job.name Job.objectives Job.infinite].
    rewrite IH, <- app_assoc. reflexivity.
Qed.

(** X24.  Objectives are queued in the order they are added to a new job,
    the job not looping; [start] publishes the first one added, or "no
    objective" when none was, and a marker added first is published like
    any objective.  When the first objective is circular, [start] throws
    and publishes nothing. *)
Theorem start_publishes_first_added (name : string) (os : list Objective)
  (p : Player.t) :
  fold_left Job.add os (Job.new name) = Job.mk name os false
  /\ Job.start (fold_left Job.add os (Job.new name)) p
     = match os with
       | [] => Returned (Player.emitMeta p "job:Objective" MUndefined)
       | first :: _ =>
           if circular first
           then ThrewTypeError p
           else Returned (Player.emitMeta p "job:Objective" (MJson first))
       end.
Proof.
  unfold Job.new. rewrite add_all. cbn [app]. split; [reflexivity |].
  unfold Job.start, stringify. destruct os as [| first rest]; [reflexivity |].
  cbn [Job.objectives hd_error]. destruct (circular first); reflexivity.
Qed.

(** ** The defaulted position *)

Lemma checkObjective_keeps (h : Heap) (p : Player.t) (o : Objective)
  (args : list string) :
  let o' := snd (fst (checkObjective h p o args)) in
  type o' = type o /\ range o' = range o /\ flags o' = flags o
  /\ maxProgress o' = maxProgress o.
Proof.
  cbv zeta. unfold checkObjective.
  destruct (dispatch_keeps p
              (progressInit (ensurePosition p o) (gates h p (ensurePosition p o)))
              args (gates h p (ensurePosition p o)))
    as (_ & Dr & Dt & Df & Dm & _).
  destruct (progressInit_keeps (ensurePosition p o)
              (gates h p (ensurePosition p o)))
    as (_ & Pr & Pt & Pf & Pm & _).
  destruct (ensurePosition_flags p o) as (Ef & Et & _ & Em & Er).
  rewrite Dt, Dr, Df, Dm, Pt, Pr, Pf, Pm, Et, Er, Ef, Em. repeat split.
Qed.

(** X25.  The position of an objective is defaulted once: an objective
    without a position takes the position of the player of its first check
    and keeps it, so a navigable objective then fails the check of any
    player standing at the range or further from that first position. *)
Theorem defaulted_position_sticks (h : Heap) (p1 p2 : Player.t) (o : Objective)
  (args : list string) :
  pos o = None ->
  type o <= 5 ->
  (range o <= distance (h (Player.pos p2)) (h (Player.pos p1)))%R ->
  let o1 := snd (fst (checkObjective h p1 o args)) in
  pos o1 = Some (Player.pos p1)
  /\ pos (snd (fst (checkObjective h p2 o1 args))) = Some (Player.pos p1)
  /\ fst (fst (checkObjective h p2 o1 args)) = JsBool false.
Proof.
  intros Hpos Ht Hd. cbv zeta.
  destruct (checkObjective_keeps h p1 o args) as (Kt & Kr & _).
  assert (P1 : pos (snd (fst (checkObjective h p1 o args)))
               = Some (Player.pos p1)).
  { rewrite checkObjective_pos, (ensurePosition_unset p1 o Hpos). reflexivity. }
  set (o1 := snd (fst (checkObjective h p1 o args))) in *.
  split; [exact P1 |]. split.
  - rewrite checkObjective_pos, (ensurePosition_set p2 o1 _ P1). exact P1.
  - rewrite checkObjective_gates_false; [reflexivity |].
    rewrite (ensurePosition_set p2 o1 _ P1).
    apply gates_rangeGate_false. unfold rangeGate.
    rewrite Kt. apply Z.leb_le in Ht. rewrite Ht.
    destruct (isInRange h p2 o1) eqn:E; [| reflexivity].
    apply (isInRange_iff h p2 o1 _ P1) in E. rewrite Kr in E. lra.
Qed.

Lemma defaulted_position_sticks_witness :
  fst (fst (checkObjective heap1 (Player.mk 1%nat None false [])
              (snd (fst (checkObjective heap1 player0 (setRange captureZone 3) [])))
              []))
  = JsBool false.
Proof.
  apply (defaulted_position_sticks heap1 player0 (Player.mk 1%nat None false [])
           (setRange captureZone 3) []).
  - reflexivity.
  - simpl. unfold Objectives.CAPTURE. lia.
  - change (range (setRange captureZone 3)
            <= distance (Vec3.mk 0 0 3) (Vec3.mk 0 0 0))%R.
    rewrite distance_vertical by lra. rewrite setRange_value.
    destruct (Rleb 3 2); lra.
Defined.

(** ** The range check inside a check *)

(** Once the range check has passed, the vehicle checks decide. *)
Lemma gates_rangeGate_true (h : Heap) (player : Player.t) (o : Objective) :
  rangeGate h player o true = true ->
  gates h player o = inVehicleGate player o (onFootGate player o true).
Proof. intro H. unfold gates. rewrite H. reflexivity. Qed.

Lemma vehicle_gates_ensurePosition (player : Player.t) (o : Objective) :
  inVehicleGate player (ensurePosition player o)
    (onFootGate player (ensurePosition player o) true)
  = inVehicleGate player o (onFootGate player o true).
Proof.
  destruct (ensurePosition_flags player o) as (Ef & _).
  unfold inVehicleGate, onFootGate. rewrite Ef. reflexivity.
Qed.

(** A go-to-point or player objective has no strategy of its own: its check
    returns what the range and vehicle checks say. *)
Lemma checkObjective_plain_kind (h : Heap) (p : Player.t) (o : Objective)
  (args : list string) :
  type o = Objectives.POINT \/ type o = Objectives.PLAYER ->
  fst (fst (checkObjective h p o args)) = JsBool (gates h p (ensurePosition p o)).
Proof.
  intro Ht. unfold checkObjective.
  rewrite dispatch_eq, checkObjective_type_arg.
  destruct Ht as [Ht | Ht]; rewrite Ht; simpl (_ =? _);
    destruct (gates h p (ensurePosition p o)); reflexivity.
Qed.

(** C10.  For an objective of a navigable kind (kind code at most 5) with
    a set position, the range check of [checkObjective] passes exactly when
    the Euclidean distance from the player's position to the objective's
    position is strictly below the stored range; at a distance equal to the
    range the check fails, and so does [checkObjective].  The check as a
    whole follows the range check: at the range or beyond it returns false
    and changes nothing; inside the range it goes on to the vehicle checks
    and the strategy of the kind, and for a go-to-point or player objective
    it returns true exactly when the player is inside the range and the
    vehicle checks pass. *)
Theorem rangeGate_strict (h : Heap) (player : Player.t) (o : Objective) (r : Ref)
  (args : list string) :
  type o <= 5 ->
  pos o = Some r ->
  let d := distance (h (Player.pos player)) (h r) in
  let v := inVehicleGate player o (onFootGate player o true) in
  (rangeGate h player (ensurePosition player o) true = true
   <-> (d < range o)%R)
  /\ (d = range o ->
      rangeGate h player (ensurePosition player o) true = false
      /\ fst (fst (checkObjective h player o args)) = JsBool false)
  /\ (gates h player (ensurePosition player o) = true
      <-> (d < range o)%R /\ v = true)
  /\ ((range o <= d)%R ->
      checkObjective h player o args = (JsBool false, o, player))
  /\ ((d < range o)%R ->
      checkObjective h player o args
      = dispatch player (progressInit o v) args v)
  /\ (type o = Objectives.POINT \/ type o = Objectives.PLAYER ->
      (fst (fst (checkObjective h player o args)) = JsBool true
       <-> (d < range o)%R /\ v = true)).
Proof.
  intros Hty Hpos d v.
  pose proof (ensurePosition_set player o r Hpos) as E.
  assert (G : rangeGate h player o true = isInRange h player o).
  { unfold rangeGate. apply Z.leb_le in Hty. rewrite Hty.
    destruct (isInRange h player o); reflexivity. }
  assert (I : rangeGate h player o true = true <-> (d < range o)%R).
  { rewrite G. apply isInRange_iff. exact Hpos. }
  assert (F : (range o <= d)%R -> rangeGate h player o true = false).
  { intro Hd. apply not_true_is_false. intro K. apply I in K. lra. }
  assert (GT : gates h player o = true <-> (d < range o)%R /\ v = true).
  { split.
    - intro K. destruct (rangeGate h player o true) eqn:RG.
      + split; [apply I; reflexivity |].
        rewrite <- K. symmetry. apply gates_rangeGate_true. exact RG.
      + rewrite (gates_rangeGate_false h player o RG) in K. discriminate.
    - intros [Hd Hv]. apply I in Hd.
      rewrite (gates_rangeGate_true h player o Hd). exact Hv. }
  rewrite E.
  split; [exact I |]. split.
  { intro Heq. split; [apply F; lra |].
    rewrite checkObjective_gates_false; [reflexivity |].
    rewrite E. apply gates_rangeGate_false, F. lra. }
  split; [exact GT |]. split.
  { intro Hd. rewrite checkObjective_gates_false; rewrite E;
      [reflexivity | apply gates_rangeGate_false, F; exact Hd]. }
  split.
  { intro Hd. unfold checkObjective. rewrite E.
    rewrite (gates_rangeGate_true h player o (proj2 I Hd)). reflexivity. }
  intro Hk. rewrite (checkObjective_plain_kind h player o args Hk), E.
  rewrite <- GT. split; [intro K; injection K as K; exact K | intros ->; reflexivity].
Qed.

(** With the default range of 5, a player three units above a go-to-point
    objective completes it; with a range of 3 the same player does not. *)
Lemma rangeGate_strict_witness :
  fst (fst (checkObjective heap1 (Player.mk 1%nat None false [])
              (with_pos goToPoint (Some 0%nat)) [])) = JsBool true
  /\ fst (fst (checkObjective heap1 (Player.mk 1%nat None false [])
                 (with_range (with_pos goToPoint (Some 0%nat)) 3) []))
     = JsBool false.
Proof.
  assert (D : distance (heap1 1%nat) (heap1 0%nat) = 3%R).
  { change (distance (Vec3.mk 0 0 3) (Vec3.mk 0 0 0) = 3%R).
    rewrite distance_vertical by lra. lra. }
  split.
  - pose proof (rangeGate_strict heap1 (Player.mk 1%nat None false [])
                  (with_pos goToPoint (Some 0%nat)) 0%nat []
                  ltac:(simpl; unfold Objectives.POINT; lia) eq_refl)
      as (_ & _ & _ & _ & _ & K).
    apply (K (or_introl eq_refl)).
    split; [| reflexivity].
    simpl Player.pos. rewrite D. simpl. lra.
  - apply (proj1 (proj2
             (rangeGate_strict heap1 (Player.mk 1%nat None false [])
                (with_range (with_pos goToPoint (Some 0%nat)) 3) 0%nat []
                ltac:(simpl; unfold Objectives.POINT; lia) eq_refl))).
    simpl Player.pos. rewrite D. reflexivity.
Defined.

(** C5.  An objective whose position was never set takes, on its first
    [checkObjective], the position of the player it is checked against, and
    the range check of that call passes: the distance of a point to itself
    is 0, below any radius the objective can have (at least 2).  So the
    range check takes no part in the outcome of that call: the vehicle
    checks and the strategy of the kind decide it, and a go-to-point or
    player objective is complete as soon as the vehicle checks pass. *)
Theorem unset_position_passes_rangeGate (h : Heap) (player : Player.t)
  (o : Objective) (args : list string) :
  pos o = None ->
  (2 <= range o)%R ->
  let o' := ensurePosition player o in
  let v := inVehicleGate player o (onFootGate player o true) in
  pos o' = Some (Player.pos player)
  /\ rangeGate h player o' true = true
  /\ pos (snd (fst (checkObjective h player o args))) = Some (Player.pos player)
  /\ isInRange h player o' = true
  /\ gates h player o' = v
  /\ checkObjective h player o args = dispatch player (progressInit o' v) args v
  /\ (type o = Objectives.POINT \/ type o = Objectives.PLAYER ->
      fst (fst (checkObjective h player o args)) = JsBool v).
Proof.
  intros Hpos Hr o' v.
  assert (E : pos o' = Some (Player.pos player)).
  { unfold o'. rewrite (ensurePosition_unset player o Hpos). reflexivity. }
  assert (I : isInRange h player o' = true).
  { apply (isInRange_own_position h player o' E).
    unfold o'. rewrite (ensurePosition_unset player o Hpos). simpl. lra. }
  assert (RG : rangeGate h player o' true = true).
  { unfold rangeGate. rewrite I. destruct (type o' <=? 5); reflexivity. }
  assert (G : gates h player o' = v).
  { rewrite (gates_rangeGate_true h player o' RG).
    apply vehicle_gates_ensurePosition. }
  split; [exact E |]. split; [exact RG |]. split.
  { rewrite checkObjective_pos. exact E. }
  split; [exact I |]. split; [exact G |]. split.
  { unfold checkObjective. fold o'. rewrite G. reflexivity. }
  intro Hk. rewrite (checkObjective_plain_kind h player o args Hk).
  fold o'. rewrite G. reflexivity.
Qed.

(** A go-to-point objective without a position, its range at the minimum,
    is complete on its first check wherever the player stands. *)
Lemma unset_position_passes_rangeGate_witness :
  pos (ensurePosition player0 (setRange goToPoint 2)) = Some 0%nat
  /\ rangeGate heap1 player0 (ensurePosition player0 (setRange goToPoint 2)) true
     = true
  /\ fst (fst (checkObjective heap1 player0 (setRange goToPoint 2) []))
     = JsBool true.
Proof.
  pose proof (unset_position_passes_rangeGate heap1 player0
                (setRange goToPoint 2) [] eq_refl
                (range_setRange goToPoint 2)) as (A & B & _ & _ & _ & _ & C).
  split; [exact A |]. split; [exact B |].
  exact (C (or_introl eq_refl)).
Defined.
